(** * The ETS tutorial notebook [examples/notebooks/ets.ipynb]

    The notebook is a straight sequence of Python cells that binds two
    literal data series, builds [ETSModel] objects from them, fits them and
    plots the results.  All numerical work is done by pandas, matplotlib and
    the [statsmodels] modelling classes, none of which is part of the
    notebook.

    The development has four layers:
    - the abstract syntax of the Python fragment and the transcription of
      every code cell ([Syntax], [Notebook]);
    - static queries over the transcription ([Static]);
    - an executable semantics in which every external call is an
      uninterpreted symbol, parameterised by an oracle that says which calls
      raise and what an iteration yields ([Semantics]);
    - a model of the calendar arithmetic behind the two date indexes
      ([Calendar]). *)

From Stdlib Require Import ZArith QArith List Ascii String Bool Lia.
From stdpp Require Import base option gmap strings.
Import ListNotations.

Local Open Scope string_scope.
Local Open Scope list_scope.

Set Warnings "-register-all".

(* ===================================================================== *)
(** ** Abstract syntax *)
(* ===================================================================== *)

Module Syntax.

(** Expressions.  A float literal keeps its decimal digits as an unreduced
    fraction over a power of ten, so [30.05251300] and [30.051] stay
    distinct from any other spelling; an int literal is a [Z]. *)
Inductive expr : Type :=
| EName (x : string)
| EFloat (q : Q)
| EInt (n : Z)
| EStr (s : string)
| EBool (b : bool)
| ENeg (e : expr)
| EList (es : list expr)
| ETuple (es : list expr)
| ESliceAll
| EAttr (e : expr) (a : string)
| ESubscript (e : expr) (idx : expr)
| ECall (f : expr) (args : list expr) (kwargs : list (string * expr)).

(** Statements.  The type lists the statement forms of Python that matter
    for the properties below, whether or not the notebook uses them. *)
Inductive stmt : Type :=
| SImport (module asname : string)
| SFromImport (module name : string)
| SMagic (line : string)
| SAssign (target : expr) (e : expr)
| SAugAssign (target : expr) (e : expr)
| SDelete (target : expr)
| SExpr (e : expr)
| SFor (x : string) (iter : expr) (body : list stmt)
| SWhile (cond : expr) (body : list stmt)
| SIf (cond : expr) (body orelse : list stmt)
| STry (body handler : list stmt)
| SRaise (e : expr)
| SWith (ctx : expr) (body : list stmt)
| SFunctionDef (name : string) (body : list stmt)
| SClassDef (name : string) (body : list stmt).

Inductive cell : Type :=
| Markdown
| Code (src : list stmt).

Definition notebook_t := list cell.

(** [x.m(args, kw)] *)
Definition method (recv : expr) (m : string) (args : list expr)
  (kwargs : list (string * expr)) : expr :=
  ECall (EAttr recv m) args kwargs.

Definition floats (qs : list Q) : expr := EList (map EFloat qs).

End Syntax.
Import Syntax.

(* ===================================================================== *)
(** ** The notebook *)
(* ===================================================================== *)

Module Notebook.

Local Open Scope Q_scope.

Definition oildata : list Q := [
    111.0091; 130.8284; 141.2871; 154.2278;
    162.7409; 192.1665; 240.7997; 304.2174;
    384.0046; 429.6622; 359.3169; 437.2519;
    468.4008; 424.4353; 487.9794; 509.8284;
    506.3473; 340.1842; 240.2589; 219.0328;
    172.0747; 252.5901; 221.0711; 276.5188;
    271.1480; 342.6186; 428.3558; 442.3946;
    432.7851; 437.2497; 437.2092; 445.3641;
    453.1950; 454.4096; 422.3789; 456.0371;
    440.3866; 425.1944; 486.2052; 500.4291;
    521.2759; 508.9476; 488.8889; 509.8706;
    456.7229; 473.8166; 525.9509; 549.8338;
    542.3405
].

Definition austourists_data : list Q := [
    30.05251300; 19.14849600; 25.31769200; 27.59143700;
    32.07645600; 23.48796100; 28.47594000; 35.12375300;
    36.83848500; 25.00701700; 30.72223000; 28.69375900;
    36.64098600; 23.82460900; 29.31168300; 31.77030900;
    35.17787700; 19.77524400; 29.60175000; 34.53884200;
    41.27359900; 26.65586200; 28.27985900; 35.19115300;
    42.20566386; 24.64917133; 32.66733514; 37.25735401;
    45.24246027; 29.35048127; 36.34420728; 41.78208136;
    49.27659843; 31.27540139; 37.85062549; 38.83704413;
    51.23690034; 31.83855162; 41.32342126; 42.79900337;
    55.70835836; 33.40714492; 42.31663797; 45.15712257;
    59.57607996; 34.83733016; 44.84168072; 46.97124960;
    60.01903094; 38.37117851; 46.97586413; 50.73379646;
    61.64687319; 39.29956937; 52.67120908; 54.33231689;
    66.83435838; 40.87118847; 51.82853579; 57.49190993;
    65.25146985; 43.06120822; 54.76075713; 59.83447494;
    73.25702747; 47.69662373; 61.09776802; 66.05576122
].

(** The parameter list written twice in the oil section, once as
    [params_R] and once as [params]. *)
Definition params_R_oil : expr := EList [
    EFloat 0.99989969; EFloat 0.11888177503085334; EFloat 0.80000197;
    EFloat 36.46466837; EFloat 34.72584983 ].

Definition params_oil : expr := EList [
    EFloat 0.99989969; EFloat 0.11888177503085334; EFloat 0.80000197;
    EFloat 36.46466837; EFloat 34.72584983 ].

Definition params_R_austourists : expr := EList [
    EFloat 0.35445427; EFloat 0.03200749; EFloat 0.39993387;
    EFloat 0.97999997; EFloat 24.01278357;
    EFloat 0.97770147; EFloat 1.76951063; ENeg (EFloat 0.50735902);
    ENeg (EFloat 6.61171798); EFloat 5.34956637 ].

Definition oil_label : expr :=
  EStr "Annual oil production in Saudi Arabia (Mt)".

Definition cell_imports : list stmt := [
  SImport "numpy" "np";
  SImport "matplotlib.pyplot" "plt";
  SImport "pandas" "pd";
  SMagic "matplotlib inline";
  SFromImport "statsmodels.tsa.exponential_smoothing.ets" "ETSModel" ].

Definition cell_rcparams : list stmt := [
  SAssign (ESubscript (EAttr (EName "plt") "rcParams") (EStr "figure.figsize"))
          (ETuple [EInt 12; EInt 8]) ].

Definition cell_oil : list stmt := [
  SAssign (EName "oildata") (floats oildata);
  SAssign (EName "oil")
    (method (EName "pd") "Series" [EName "oildata"]
       [("index", method (EName "pd") "date_range"
                    [EStr "1965"; EStr "2013"] [("freq", EStr "AS")])]);
  SExpr (method (EName "oil") "plot" [] []);
  SExpr (method (EName "plt") "ylabel" [oil_label] []) ].

Definition cell_oil_fit : list stmt := [
  SAssign (EName "model")
    (ECall (EName "ETSModel") [EName "oil"]
       [("error", EStr "add"); ("trend", EStr "add");
        ("damped_trend", EBool true)]);
  SAssign (EName "fit")
    (method (EName "model") "fit" [] [("maxiter", EInt 10000)]);
  SExpr (method (EName "oil") "plot" [] [("label", EStr "data")]);
  SExpr (method (EAttr (EName "fit") "fittedvalues") "plot" []
           [("label", EStr "statsmodels fit")]);
  SExpr (method (EName "plt") "ylabel" [oil_label] []);
  SAssign (EName "params_R") params_R_oil;
  SAssign (EName "yhat")
    (EAttr (method (EName "model") "smooth" [EName "params_R"] [])
           "fittedvalues");
  SExpr (method (EName "yhat") "plot" []
           [("label", EStr "R fit"); ("linestyle", EStr "--")]);
  SExpr (method (EName "plt") "legend" [] []) ].

Definition cell_oil_heuristic : list stmt := [
  SAssign (EName "model_heuristic")
    (ECall (EName "ETSModel") [EName "oil"]
       [("error", EStr "add"); ("trend", EStr "add");
        ("damped_trend", EBool true);
        ("initialization_method", EStr "heuristic")]);
  SAssign (EName "fit_heuristic")
    (method (EName "model_heuristic") "fit" [] []);
  SExpr (method (EName "oil") "plot" [] [("label", EStr "data")]);
  SExpr (method (EAttr (EName "fit") "fittedvalues") "plot" []
           [("label", EStr "estimated")]);
  SExpr (method (EAttr (EName "fit_heuristic") "fittedvalues") "plot" []
           [("label", EStr "heuristic"); ("linestyle", EStr "--")]);
  SExpr (method (EName "plt") "ylabel" [oil_label] []);
  SAssign (EName "params") params_oil;
  SAssign (EName "yhat")
    (EAttr (method (EName "model") "smooth" [EName "params"] [])
           "fittedvalues");
  SExpr (method (EName "yhat") "plot" []
           [("label", EStr "with R params"); ("linestyle", EStr ":")]);
  SExpr (method (EName "plt") "legend" [] []) ].

Definition cell_fit_summary : list stmt := [
  SExpr (method (EName "fit") "summary" [] []) ].

Definition cell_fit_heuristic_summary : list stmt := [
  SExpr (method (EName "fit_heuristic") "summary" [] []) ].

Definition cell_austourists : list stmt := [
  SAssign (EName "austourists_data") (floats austourists_data);
  SAssign (EName "index")
    (method (EName "pd") "date_range"
       [EStr "1999-03-01"; EStr "2015-12-01"] [("freq", EStr "3MS")]);
  SAssign (EName "austourists")
    (method (EName "pd") "Series" [EName "austourists_data"]
       [("index", EName "index")]);
  SExpr (method (EName "austourists") "plot" [] []);
  SExpr (method (EName "plt") "ylabel" [EStr "Australian Tourists"] []) ].

Definition cell_austourists_fit : list stmt := [
  SAssign (EName "model")
    (ECall (EName "ETSModel") [EName "austourists"]
       [("error", EStr "add"); ("trend", EStr "add");
        ("seasonal", EStr "add");
        ("damped_trend", EBool true); ("seasonal_periods", EInt 4)]);
  SAssign (EName "fit") (method (EName "model") "fit" [] []);
  SAssign (EName "params_R") params_R_austourists;
  SAssign (EName "fit_R")
    (method (EName "model") "smooth" [EName "params_R"] []);
  SExpr (method (EName "austourists") "plot" [] [("label", EStr "data")]);
  SExpr (method (EName "plt") "ylabel" [EStr "Australian Tourists"] []);
  SExpr (method (EAttr (EName "fit") "fittedvalues") "plot" []
           [("label", EStr "statsmodels fit")]);
  SExpr (method (EAttr (EName "fit_R") "fittedvalues") "plot" []
           [("label", EStr "R fit"); ("linestyle", EStr "--")]);
  SExpr (method (EName "plt") "legend" [] []) ].

Definition cell_get_prediction : list stmt := [
  SAssign (EName "pred")
    (method (EName "fit") "get_prediction" []
       [("start", EStr "2014"); ("end", EStr "2020")]) ].

Definition cell_summary_frame : list stmt := [
  SAssign (EName "df")
    (method (EName "pred") "summary_frame" [] [("alpha", EFloat 0.05)]);
  SExpr (EName "df") ].

Definition cell_simulate : list stmt := [
  SAssign (EName "simulated")
    (method (EName "fit") "simulate" []
       [("anchor", EStr "end"); ("nsimulations", EInt 17);
        ("repetitions", EInt 100)]) ].

Definition cell_plot_simulations : list stmt := [
  SFor "i"
    (ECall (EName "range")
       [ESubscript (EAttr (EName "simulated") "shape") (EInt 1)] [])
    [ SExpr (method
        (ESubscript (EAttr (EName "simulated") "iloc")
                    (ETuple [ESliceAll; EName "i"]))
        "plot" []
        [("label", EStr "_"); ("color", EStr "gray"); ("alpha", EFloat 0.1)]) ];
  SExpr (method (ESubscript (EName "df") (EStr "mean")) "plot" []
           [("label", EStr "mean prediction")]);
  SExpr (method (ESubscript (EName "df") (EStr "pi_lower")) "plot" []
           [("linestyle", EStr "--"); ("color", EStr "tab:blue");
            ("label", EStr "95% interval")]);
  SExpr (method (ESubscript (EName "df") (EStr "pi_upper")) "plot" []
           [("linestyle", EStr "--"); ("color", EStr "tab:blue");
            ("label", EStr "_")]);
  SExpr (method (EAttr (EName "pred") "endog") "plot" []
           [("label", EStr "data")]);
  SExpr (method (EName "plt") "legend" [] []) ].

(** All cells of the notebook, in order; a markdown cell holds no code. *)
Definition notebook : notebook_t := [
  Markdown;
  Code cell_imports;
  Code cell_rcparams;
  Markdown;
  Code cell_oil;
  Markdown;
  Code cell_oil_fit;
  Markdown;
  Code cell_oil_heuristic;
  Markdown;
  Code cell_fit_summary;
  Code cell_fit_heuristic_summary;
  Markdown;
  Code cell_austourists;
  Code cell_austourists_fit;
  Code cell_fit_summary;
  Markdown;
  Code cell_get_prediction;
  Code cell_summary_frame;
  Markdown;
  Code cell_simulate;
  Code cell_plot_simulations;
  Markdown;
  Code [] ].

End Notebook.

Import Notebook.

(* ===================================================================== *)
(** ** Static queries *)
(* ===================================================================== *)

Module Static.

(** The statements of the code cells, in cell order. *)
Definition code (nb : notebook_t) : list stmt :=
  flat_map (fun c => match c with Markdown => [] | Code src => src end) nb.

(** Every call expression inside [e], in evaluation order: callee first,
    then positional arguments, then keyword arguments, then the call. *)
Fixpoint calls_e (e : expr) : list expr :=
  match e with
  | EName _ | EFloat _ | EInt _ | EStr _ | EBool _ | ESliceAll => []
  | ENeg e1 => calls_e e1
  | EList es | ETuple es => flat_map calls_e es
  | EAttr e1 _ => calls_e e1
  | ESubscript e1 i => calls_e e1 ++ calls_e i
  | ECall f args kwargs =>
      calls_e f ++ flat_map calls_e args
        ++ flat_map (fun kv => calls_e (snd kv)) kwargs ++ [e]
  end.

Fixpoint calls_s (s : stmt) : list expr :=
  match s with
  | SImport _ _ | SFromImport _ _ | SMagic _ => []
  | SAssign t e | SAugAssign t e => calls_e e ++ calls_e t
  | SDelete t => calls_e t
  | SExpr e | SRaise e => calls_e e
  | SFor _ it body => calls_e it ++ flat_map calls_s body
  | SWhile c body => calls_e c ++ flat_map calls_s body
  | SIf c body orelse =>
      calls_e c ++ flat_map calls_s body ++ flat_map calls_s orelse
  | STry body handler => flat_map calls_s body ++ flat_map calls_s handler
  | SWith c body => calls_e c ++ flat_map calls_s body
  | SFunctionDef _ body | SClassDef _ body => flat_map calls_s body
  end.

Definition calls (nb : notebook_t) : list expr := flat_map calls_s (code nb).

(** The name a call site is written with: [m] for [x.m(...)], [f] for
    [f(...)]. *)
Definition callee_name (c : expr) : option string :=
  match c with
  | ECall (EAttr _ m) _ _ => Some m
  | ECall (EName f) _ _ => Some f
  | _ => None
  end.

Definition kwarg_names (c : expr) : list string :=
  match c with
  | ECall _ _ kwargs => map fst kwargs
  | _ => []
  end.

Definition mem (x : string) (l : list string) : bool :=
  existsb (String.eqb x) l.

Definition called_as (names : list string) (c : expr) : bool :=
  match callee_name c with
  | Some n => mem n names
  | None => false
  end.

(** The entry points of the modelling API that the notebook uses. *)
Definition constructor_api : list string := ["ETSModel"].
Definition fitting_api : list string := ["fit"; "smooth"].
Definition prediction_api : list string :=
  ["get_prediction"; "summary_frame"; "simulate"].
Definition modelling_api : list string :=
  constructor_api ++ fitting_api ++ ["summary"] ++ prediction_api.

(** Plotting and formatting calls. *)
Definition plotting_api : list string := ["plot"; "ylabel"; "legend"].

Definition api_calls (nb : notebook_t) : list expr :=
  List.filter (called_as modelling_api) (calls nb).

Definition api_call_count (nb : notebook_t) : nat := length (api_calls nb).

(** Names of the keyword arguments handed to the calls named in [names]. *)
Definition kwargs_passed_to (names : list string) (nb : notebook_t)
  : list string :=
  flat_map kwarg_names (List.filter (called_as names) (calls nb)).

(** Statement forms, searched through every nested block. *)
Section Contains.
Variable p : stmt -> bool.

Fixpoint contains (s : stmt) : bool :=
  p s ||
  match s with
  | SFor _ _ body | SWhile _ body | SWith _ body
  | SFunctionDef _ body | SClassDef _ body => existsb contains body
  | SIf _ body orelse => existsb contains body || existsb contains orelse
  | STry body handler => existsb contains body || existsb contains handler
  | _ => false
  end.
End Contains.

Definition is_try (s : stmt) : bool :=
  match s with STry _ _ => true | _ => false end.
Definition is_if (s : stmt) : bool :=
  match s with SIf _ _ _ => true | _ => false end.
Definition is_raise (s : stmt) : bool :=
  match s with SRaise _ => true | _ => false end.
Definition is_def (s : stmt) : bool :=
  match s with SFunctionDef _ _ | SClassDef _ _ => true | _ => false end.

(** A retry loop is a loop that runs a guarded attempt: a [while], or a
    [for] with a [try] somewhere in its body. *)
Definition is_retry_loop (s : stmt) : bool :=
  match s with
  | SWhile _ _ => true
  | SFor _ _ body => existsb (contains is_try) body
  | _ => false
  end.

Definition uses (p : stmt -> bool) (nb : notebook_t) : bool :=
  existsb (contains p) (code nb).

(** Names bound by a statement, through every nested block. *)
Fixpoint binds (s : stmt) : list string :=
  match s with
  | SImport _ x => [x]
  | SFromImport _ n => [n]
  | SAssign (EName x) _ | SAugAssign (EName x) _ | SDelete (EName x) => [x]
  | SFor x _ body => x :: flat_map binds body
  | SWhile _ body | SWith _ body => flat_map binds body
  | SIf _ body orelse => flat_map binds body ++ flat_map binds orelse
  | STry body handler => flat_map binds body ++ flat_map binds handler
  | SFunctionDef n _ | SClassDef n _ => [n]
  | _ => []
  end.

Definition bindings_of (x : string) (nb : notebook_t) : nat :=
  length (List.filter (String.eqb x) (flat_map binds (code nb))).

End Static.
Import Static.

(* ===================================================================== *)
(** ** Semantics *)
(* ===================================================================== *)

Module Semantics.

(** Values.  The result of an external call is the call itself: callee,
    evaluated arguments and evaluated keyword arguments.  Attribute and
    subscript reads of such a result are kept as projections of it. *)
Inductive value : Type :=
| VFloat (q : Q)
| VInt (n : Z)
| VStr (s : string)
| VBool (b : bool)
| VNeg (v : value)
| VList (vs : list value)
| VTuple (vs : list value)
| VSliceAll
| VModule (name : string)
| VImported (module name : string)
| VBuiltin (name : string)
| VItem (iterable : value) (k : nat)
| VAttr (v : value) (a : string)
| VSubscript (v idx : value)
| VCall (f : value) (args : list value) (kwargs : list (string * value)).

(** What a run leaves behind: name bindings and external calls. *)
Inductive event : Type :=
| Bind (x : string) (v : value)
| Call (c : value).

Inductive exn : Type :=
| NameError (x : string)
| ExtError (c : value) (msg : string).

Record state : Type := mkState {
  env : gmap string value;
  trace : list event
}.

Definition init : state := mkState ∅ [].

Inductive outcome (A : Type) : Type :=
| Normal (a : A) (st : state)
| Raised (x : exn) (st : state)
| Stuck (st : state).
Arguments Normal {A} a st.
Arguments Raised {A} x st.
Arguments Stuck {A} st.

Definition final {A} (o : outcome A) : state :=
  match o with Normal _ st | Raised _ st | Stuck st => st end.

(** The behaviour of everything outside the notebook: whether a call made
    after the events [history] raises, and how many items an iteration
    over a value yields. *)
Record oracle : Type := mkOracle {
  raises : list event -> value -> option string;
  count : value -> nat
}.

Definition M (A : Type) : Type := state -> outcome A.

Definition ret {A} (a : A) : M A := fun st => Normal a st.

Definition bind {A B} (m : M A) (f : A -> M B) : M B :=
  fun st =>
    match m st with
    | Normal a st' => f a st'
    | Raised x st' => Raised x st'
    | Stuck st' => Stuck st'
    end.

Notation "'do' x <- m ;; k" := (bind m (fun x => k))
  (at level 10, x name, m at level 99, k at level 200).

Definition stuck {A} : M A := fun st => Stuck st.

Definition bind_name (x : string) (v : value) : M unit :=
  fun st => Normal tt (mkState (<[x := v]> (env st)) (trace st ++ [Bind x v])).

Definition builtins : list string := ["range"].

Definition lookup_name (x : string) : M value :=
  fun st =>
    match env st !! x with
    | Some v => Normal v st
    | None =>
        if mem x builtins then Normal (VBuiltin x) st
        else Raised (NameError x) st
    end.

Definition neg (v : value) : value :=
  match v with
  | VFloat q => VFloat (- q)
  | VInt n => VInt (- n)
  | _ => VNeg v
  end.

Section Run.
Variable O : oracle.

(** An external call: recorded, then it either raises or returns. *)
Definition call (c : value) : M value :=
  fun st =>
    let st' := mkState (env st) (trace st ++ [Call c]) in
    match raises O (trace st) c with
    | Some msg => Raised (ExtError c msg) st'
    | None => Normal c st'
    end.

Fixpoint eval (e : expr) : M value :=
  match e with
  | EName x => lookup_name x
  | EFloat q => ret (VFloat q)
  | EInt n => ret (VInt n)
  | EStr s => ret (VStr s)
  | EBool b => ret (VBool b)
  | ESliceAll => ret VSliceAll
  | ENeg e1 => do v <- eval e1 ;; ret (neg v)
  | EList es =>
      do vs <- (fix go (es : list expr) : M (list value) :=
               match es with
               | [] => ret []
               | e1 :: es' => do v <- eval e1 ;; do vs <- go es' ;; ret (v :: vs)
               end) es ;;
      ret (VList vs)
  | ETuple es =>
      do vs <- (fix go (es : list expr) : M (list value) :=
               match es with
               | [] => ret []
               | e1 :: es' => do v <- eval e1 ;; do vs <- go es' ;; ret (v :: vs)
               end) es ;;
      ret (VTuple vs)
  | EAttr e1 a => do v <- eval e1 ;; ret (VAttr v a)
  | ESubscript e1 i => do v <- eval e1 ;; do iv <- eval i ;; ret (VSubscript v iv)
  | ECall f args kwargs =>
      do fv <- eval f ;;
      do avs <- (fix go (es : list expr) : M (list value) :=
                match es with
                | [] => ret []
                | e1 :: es' => do v <- eval e1 ;; do vs <- go es' ;; ret (v :: vs)
                end) args ;;
      do kvs <- (fix go (kws : list (string * expr))
                : M (list (string * value)) :=
                match kws with
                | [] => ret []
                | (k, e1) :: kws' =>
                    do v <- eval e1 ;; do vs <- go kws' ;; ret ((k, v) :: vs)
                end) kwargs ;;
      call (VCall fv avs kvs)
  end.

Fixpoint eval_list (es : list expr) : M (list value) :=
  match es with
  | [] => ret []
  | e1 :: es' => do v <- eval e1 ;; do vs <- eval_list es' ;; ret (v :: vs)
  end.

Fixpoint eval_kwargs (kws : list (string * expr))
  : M (list (string * value)) :=
  match kws with
  | [] => ret []
  | (k, e1) :: kws' =>
      do v <- eval e1 ;; do vs <- eval_kwargs kws' ;; ret ((k, v) :: vs)
  end.

(** [target = v]: a name is rebound; an item or attribute store is a call
    into the object that owns the item or attribute. *)
Definition assign (target : expr) (v : value) : M unit :=
  match target with
  | EName x => bind_name x v
  | ESubscript o i =>
      do ov <- eval o ;; do iv <- eval i ;;
      do _ <- call (VCall (VAttr ov "__setitem__") [iv; v] []) ;; ret tt
  | EAttr o a =>
      do ov <- eval o ;;
      do _ <- call (VCall (VAttr ov "__setattr__") [VStr a; v] []) ;; ret tt
  | _ => stuck
  end.

(** Statements.  [import], [=], expression statements, [for] and [try]
    have a meaning here; the other forms stop the run as [Stuck]. *)
Fixpoint exec (s : stmt) : M unit :=
  match s with
  | SImport m x => bind_name x (VModule m)
  | SFromImport m n => bind_name n (VImported m n)
  | SMagic _ => ret tt
  | SAssign t e => do v <- eval e ;; assign t v
  | SExpr e => do _ <- eval e ;; ret tt
  | SFor x it body =>
      do itv <- eval it ;;
      (fix loop (n k : nat) : M unit :=
         match n with
         | 0 => ret tt
         | S n' =>
             do _ <- bind_name x (VItem itv k) ;;
             do _ <- (fix block (ss : list stmt) : M unit :=
                     match ss with
                     | [] => ret tt
                     | s1 :: ss' => do _ <- exec s1 ;; block ss'
                     end) body ;;
             loop n' (S k)
         end) (count O itv) 0
  | STry body handler =>
      fun st =>
        match (fix block (ss : list stmt) : M unit :=
                 match ss with
                 | [] => ret tt
                 | s1 :: ss' => do _ <- exec s1 ;; block ss'
                 end) body st with
        | Raised _ st' =>
            (fix block (ss : list stmt) : M unit :=
               match ss with
               | [] => ret tt
               | s1 :: ss' => do _ <- exec s1 ;; block ss'
               end) handler st'
        | o => o
        end
  | _ => stuck
  end.

Fixpoint exec_block (ss : list stmt) : M unit :=
  match ss with
  | [] => ret tt
  | s1 :: ss' => do _ <- exec s1 ;; exec_block ss'
  end.

Definition loop (x : string) (itv : value) (body : list stmt)
  : nat -> nat -> M unit :=
  fix loop (n k : nat) : M unit :=
    match n with
    | 0 => ret tt
    | S n' =>
        do _ <- bind_name x (VItem itv k) ;;
        do _ <- exec_block body ;;
        loop n' (S k)
    end.

(** Running a notebook: its code cells from the empty state. *)
Definition run (nb : notebook_t) : outcome unit := exec_block (code nb) init.

End Run.

(** The oracle under which no call raises. *)
Definition quiet_oracle (n : nat) : oracle :=
  mkOracle (fun _ _ => None) (fun _ => n).

End Semantics.
Import Semantics.

(* ===================================================================== *)
(** ** Calendar arithmetic of the date indexes *)
(* ===================================================================== *)

Module Calendar.

Local Open Scope Z_scope.

Record date : Type := mkDate { year : Z; month : Z; day : Z }.

(** Months since year 0, the unit in which the month-start frequencies
    count. *)
Definition months (d : date) : Z := year d * 12 + (month d - 1).

Definition of_months (k : Z) : date := mkDate (k / 12) (k mod 12 + 1) 1.



(** A frequency: the period of its anchor in months (1 for month start, 3
    for quarter start, 12 for year start) and the multiple written in front
    of the alias. *)
Record freq : Type := mkFreq { anchor : Z; multiple : Z }.

Definition step (f : freq) : Z := anchor f * multiple f.

Definition digit (c : Ascii.ascii) : option Z :=
  let n := Z.of_nat (Ascii.nat_of_ascii c) in
  if (48 <=? n) && (n <=? 57) then Some (n - 48) else None.

(** Leading decimal digits of [s] and the rest of [s]. *)
Fixpoint digits (acc : Z) (seen : bool) (s : string) : option Z * string :=
  match s with
  | String c s' =>
      match digit c with
      | Some d => digits (acc * 10 + d) true s'
      | None => (if seen then Some acc else None, s)
      end
  | EmptyString => (if seen then Some acc else None, s)
  end.

Definition alias_anchor (a : string) : option Z :=
  if String.eqb a "MS" then Some 1
  else if String.eqb a "QS" then Some 3
  else if String.eqb a "AS" || String.eqb a "YS" then Some 12
  else None.

(** ["AS"], ["MS"], ["3MS"], ...: an optional multiple and an alias. *)
Definition parse_freq (s : string) : option freq :=
  let '(n, rest) := digits 0 false s in
  match alias_anchor rest with
  | Some a => Some (mkFreq a (match n with Some k => k | None => 1 end))
  | None => None
  end.

(** ["YYYY"], ["YYYY-MM"] and ["YYYY-MM-DD"]; a missing month or day is the
    first one. *)
Definition parse_date (s : string) : option date :=
  match digits 0 false s with
  | (Some y, EmptyString) => Some (mkDate y 1 1)
  | (Some y, String "-"%char s1) =>
      match digits 0 false s1 with
      | (Some m, EmptyString) =>
          if (1 <=? m) && (m <=? 12) then Some (mkDate y m 1) else None
      | (Some m, String "-"%char s2) =>
          match digits 0 false s2 with
          | (Some d, EmptyString) =>
              if (1 <=? m) && (m <=? 12) && (1 <=? d) && (d <=? 31)
              then Some (mkDate y m d) else None
          | _ => None
          end
      | _ => None
      end
  | _ => None
  end.

(** Modelled from the spec: [pandas.date_range(start, end, freq)] for the
    month-start family of frequencies, which the notebook only calls.  The
    index starts at the first anchored date not before [start] and advances
    by the frequency's step while it does not pass [end]. *)
Definition rollforward (f : freq) (d : date) : Z :=
  let k := if day d =? 1 then months d else months d + 1 in
  k + (- k) mod anchor f.

Definition date_range (start stop : date) (f : freq) : list date :=
  let k0 := rollforward f start in
  let k1 := months stop in
  if (k1 <? k0) || (step f <=? 0) then []
  else map (fun i => of_months (k0 + Z.of_nat i * step f))
           (seq 0 (S (Z.to_nat ((k1 - k0) / step f)))).

(** Modelled from the spec: [pandas.Series(data, index=index)], which the
    notebook only calls.  The construction succeeds when data and index have
    the same length and pairs them in order. *)
Definition Series (data : list Q) (index : list date)
  : option (list (date * Q)) :=
  if Nat.eqb (length data) (length index) then Some (combine index data)
  else None.

(** Modelled from the spec: the index of [fit.simulate(anchor="end",
    nsimulations=n)], a method of the modelling library that the notebook
    only calls.  Anchored at the end, the first simulated value is the first
    out-of-sample one: the simulated index continues the data index by [n]
    steps of its frequency. *)
Definition simulate_index (index : list date) (f : freq) (n : nat)
  : list date :=
  match last index with
  | Some d =>
      map (fun i => of_months (months d + Z.of_nat (S i) * step f)) (seq 0 n)
  | None => []
  end.

(** Calendar quarter of a date: year and quarter number 1..4. *)
Definition quarter (d : date) : Z * Z := (year d, (month d - 1) / 3 + 1).

Definition next_quarter (q : Z * Z) : Z * Z :=
  if snd q =? 4 then (fst q + 1, 1) else (fst q, snd q + 1).

Fixpoint quarters_from (q : Z * Z) (n : nat) : list (Z * Z) :=
  match n with
  | O => []
  | S n' => q :: quarters_from (next_quarter q) n'
  end.

End Calendar.
Import Calendar.

(* ===================================================================== *)
(** ** Reading values and events *)
(* ===================================================================== *)

Module Reading.

Definition Q_same (p q : Q) : bool :=
  Z.eqb (Qnum p) (Qnum q) && Pos.eqb (Qden p) (Qden q).

(** Structural equality of values, digit for digit on literals. *)
Fixpoint value_eqb (a b : value) {struct a} : bool :=
  match a, b with
  | VFloat p, VFloat q => Q_same p q
  | VInt m, VInt n => Z.eqb m n
  | VStr s, VStr t => String.eqb s t
  | VBool x, VBool y => Bool.eqb x y
  | VNeg x, VNeg y => value_eqb x y
  | VList xs, VList ys | VTuple xs, VTuple ys =>
      (fix go (xs ys : list value) : bool :=
         match xs, ys with
         | [], [] => true
         | x :: xs', y :: ys' => value_eqb x y && go xs' ys'
         | _, _ => false
         end) xs ys
  | VSliceAll, VSliceAll => true
  | VModule m, VModule n => String.eqb m n
  | VImported m x, VImported n y => String.eqb m n && String.eqb x y
  | VBuiltin m, VBuiltin n => String.eqb m n
  | VItem x j, VItem y k => value_eqb x y && Nat.eqb j k
  | VAttr x s, VAttr y t => value_eqb x y && String.eqb s t
  | VSubscript x i, VSubscript y j => value_eqb x y && value_eqb i j
  | VCall f xs kx, VCall g ys ky =>
      value_eqb f g
      && (fix go (xs ys : list value) : bool :=
            match xs, ys with
            | [], [] => true
            | x :: xs', y :: ys' => value_eqb x y && go xs' ys'
            | _, _ => false
            end) xs ys
      && (fix go (kx ky : list (string * value)) : bool :=
            match kx, ky with
            | [], [] => true
            | (k, x) :: kx', (l, y) :: ky' =>
                String.eqb k l && value_eqb x y && go kx' ky'
            | _, _ => false
            end) kx ky
  | _, _ => false
  end.

Definition event_eqb (a b : event) : bool :=
  match a, b with
  | Bind x v, Bind y w => String.eqb x y && value_eqb v w
  | Call c, Call d => value_eqb c d
  | _, _ => false
  end.

Definition occurs (ev : event) (tr : list event) : bool :=
  existsb (event_eqb ev) tr.

(** The method name, receiver and keyword arguments of a call. *)
Definition callee (c : value) : option string :=
  match c with
  | VCall (VAttr _ m) _ _ => Some m
  | VCall (VImported _ n) _ _ => Some n
  | VCall (VBuiltin n) _ _ => Some n
  | _ => None
  end.

Definition receiver (c : value) : option value :=
  match c with
  | VCall (VAttr r _) _ _ => Some r
  | _ => None
  end.

Definition is_call_to (names : list string) (c : value) : bool :=
  match callee c with
  | Some n => mem n names
  | None => false
  end.

Fixpoint kwarg (k : string) (kw : list (string * value)) : option value :=
  match kw with
  | [] => None
  | (k', v) :: kw' => if String.eqb k k' then Some v else kwarg k kw'
  end.

Definition is_bind_of (x : string) (ev : event) : bool :=
  match ev with
  | Bind y _ => String.eqb x y
  | Call _ => false
  end.

(** Every external call inside a value, innermost first. *)
Fixpoint calls_in (v : value) : list value :=
  match v with
  | VNeg x | VItem x _ | VAttr x _ => calls_in x
  | VList xs | VTuple xs => flat_map calls_in xs
  | VSubscript x i => calls_in x ++ calls_in i
  | VCall f xs kx =>
      calls_in f ++ flat_map calls_in xs
        ++ flat_map (fun kv => calls_in (snd kv)) kx ++ [v]
  | _ => []
  end.

(** The calls a call depends on: those inside its callee and arguments. *)
Definition inputs (c : value) : list value :=
  match c with
  | VCall f xs kx =>
      calls_in f ++ flat_map calls_in xs
        ++ flat_map (fun kv => calls_in (snd kv)) kx
  | _ => []
  end.

Fixpoint floats_of (vs : list value) : option (list Q) :=
  match vs with
  | [] => Some []
  | VFloat q :: vs' => option_map (cons q) (floats_of vs')
  | _ => None
  end.

Definition from_pandas (name : string) (c : value) : bool :=
  match c with
  | VCall (VAttr (VModule m) f) _ _ =>
      String.eqb m "pandas" && String.eqb f name
  | _ => false
  end.

(** The dates and frequency denoted by a [pd.date_range(start, end,
    freq=...)] call. *)
Definition index_of (c : value) : option (list date * freq) :=
  match c with
  | VCall _ [VStr a; VStr b] kw =>
      if from_pandas "date_range" c then
        match parse_date a, parse_date b, kwarg "freq" kw with
        | Some a', Some b', Some (VStr fs) =>
            match parse_freq fs with
            | Some f => Some (date_range a' b' f, f)
            | None => None
            end
        | _, _, _ => None
        end
      else None
  | _ => None
  end.

(** The series denoted by a [pd.Series(data, index=...)] call, when the
    construction succeeds. *)
Definition series_of (c : value) : option (list (date * Q)) :=
  match c with
  | VCall _ [VList vs] kw =>
      if from_pandas "Series" c then
        match floats_of vs, kwarg "index" kw with
        | Some data, Some ix =>
            match index_of ix with
            | Some (dates, _) => Series data dates
            | None => None
            end
        | _, _ => None
        end
      else None
  | _ => None
  end.

Definition is_model (c : value) : bool :=
  match c with
  | VCall (VImported m n) _ _ =>
      String.eqb m "statsmodels.tsa.exponential_smoothing.ets"
      && String.eqb n "ETSModel"
  | _ => false
  end.

(** The data a model was built from: the first positional argument of the
    constructor call. *)
Definition endog (model : value) : option value :=
  match model with
  | VCall _ (series :: _) _ => if is_model model then Some series else None
  | _ => None
  end.

(** The model behind a fit: the receiver of the [fit] call. *)
Definition model_of (fit : value) : option value :=
  match fit with
  | VCall (VAttr m f) _ _ => if String.eqb f "fit" then Some m else None
  | _ => None
  end.

(** The index of the frame returned by a [simulate] call on a fit. *)
Definition simulated_index_of (c : value) : option (list date) :=
  match c with
  | VCall (VAttr fit m) [] kw =>
      if String.eqb m "simulate" then
        match model_of fit with
        | Some model =>
            match endog model with
            | Some (VCall _ _ skw) =>
                match kwarg "index" skw, kwarg "anchor" kw,
                      kwarg "nsimulations" kw with
                | Some ix, Some (VStr a), Some (VInt n) =>
                    match index_of ix with
                    | Some (dates, f) =>
                        if String.eqb a "end"
                        then Some (simulate_index dates f (Z.to_nat n))
                        else None
                    | None => None
                    end
                | _, _, _ => None
                end
            | _ => None
            end
        | None => None
        end
      else None
  | _ => None
  end.

End Reading.
Import Reading.

(* ===================================================================== *)
(** ** Runs under an arbitrary oracle *)
(* ===================================================================== *)

(** The oracle that agrees with [O] on iteration and never raises. *)
Definition calm (O : oracle) : oracle := mkOracle (fun _ _ => None) (count O).

(** No call recorded in [tr] raised. *)
Definition quiet (O : oracle) (tr : list event) : Prop :=
  forall tr1 c tr2, tr = tr1 ++ Call c :: tr2 -> raises O tr1 c = None.

(** [m] under [O] follows [m0] under [calm O] until the first call that
    raises: it ends in the same way with the same state, or it stops at a
    raising call with a trace that [m0] extends. *)
Definition faithful {A} (O : oracle) (m m0 : M A) : Prop :=
  (forall st, trace st `prefix_of` trace (final (m0 st))) /\
  (forall st, quiet O (trace st) ->
     trace st `prefix_of` trace (final (m st)) /\
     trace (final (m st)) `prefix_of` trace (final (m0 st)) /\
     match m st with
     | Raised (ExtError c msg) st' =>
         exists tr, trace st' = tr ++ [Call c] /\ quiet O tr
                    /\ raises O tr c = Some msg
     | o => m0 st = o /\ quiet O (trace (final o))
     end).

(** A computation that does not consult the oracle: it only extends the
    trace, by bindings, and raises nothing but [NameError]. *)
Definition steady {A} (O : oracle) (m : M A) : Prop :=
  forall st,
    trace st `prefix_of` trace (final (m st)) /\
    (quiet O (trace st) -> quiet O (trace (final (m st)))) /\
    (forall c msg st', m st <> Raised (ExtError c msg) st').

(** A statement with no [try] anywhere inside. *)
Definition handler_free (s : stmt) : bool := negb (contains is_try s).

(* ===================================================================== *)
(** ** The objects of the notebook *)
(* ===================================================================== *)

(** The values the notebook's names are expected to denote, written as the
    calls that produce them. *)
Module Objects.

Definition pd : value := VModule "pandas".
Definition plt : value := VModule "matplotlib.pyplot".
Definition ETSModel : value :=
  VImported "statsmodels.tsa.exponential_smoothing.ets" "ETSModel".

Definition oil_index : value :=
  VCall (VAttr pd "date_range") [VStr "1965"; VStr "2013"]
    [("freq", VStr "AS")].

Definition oil : value :=
  VCall (VAttr pd "Series") [VList (map VFloat oildata)]
    [("index", oil_index)].

Definition austourists_index : value :=
  VCall (VAttr pd "date_range") [VStr "1999-03-01"; VStr "2015-12-01"]
    [("freq", VStr "3MS")].

Definition austourists : value :=
  VCall (VAttr pd "Series") [VList (map VFloat austourists_data)]
    [("index", austourists_index)].

Definition oil_model : value :=
  VCall ETSModel [oil]
    [("error", VStr "add"); ("trend", VStr "add");
     ("damped_trend", VBool true)].

Definition oil_fit : value :=
  VCall (VAttr oil_model "fit") [] [("maxiter", VInt 10000)].

Definition heuristic_model : value :=
  VCall ETSModel [oil]
    [("error", VStr "add"); ("trend", VStr "add");
     ("damped_trend", VBool true);
     ("initialization_method", VStr "heuristic")].

Definition heuristic_fit : value :=
  VCall (VAttr heuristic_model "fit") [] [].

Definition oil_params : value :=
  VList [VFloat 0.99989969; VFloat 0.11888177503085334; VFloat 0.80000197;
         VFloat 36.46466837; VFloat 34.72584983].

(** The call [model.smooth(params)]. *)
Definition smooth_result (model params : value) : value :=
  VCall (VAttr model "smooth") [params] [].

Definition oil_smooth : value := smooth_result oil_model oil_params.

Definition seasonal_model : value :=
  VCall ETSModel [austourists]
    [("error", VStr "add"); ("trend", VStr "add"); ("seasonal", VStr "add");
     ("damped_trend", VBool true); ("seasonal_periods", VInt 4)].

Definition seasonal_fit : value :=
  VCall (VAttr seasonal_model "fit") [] [].

Definition prediction : value :=
  VCall (VAttr seasonal_fit "get_prediction") []
    [("start", VStr "2014"); ("end", VStr "2020")].

Definition frame : value :=
  VCall (VAttr prediction "summary_frame") [] [("alpha", VFloat 0.05)].

Definition simulated : value :=
  VCall (VAttr seasonal_fit "simulate") []
    [("anchor", VStr "end"); ("nsimulations", VInt 17);
     ("repetitions", VInt 100)].

(** The iterable of the plotting loop and the events of its [k]-th pass. *)
Definition columns (sim : value) : value :=
  VCall (VBuiltin "range") [VSubscript (VAttr sim "shape") (VInt 1)] [].

Definition column_plot (sim : value) (k : nat) : value :=
  VCall (VAttr (VSubscript (VAttr sim "iloc")
                  (VTuple [VSliceAll; VItem (columns sim) k])) "plot") []
    [("label", VStr "_"); ("color", VStr "gray"); ("alpha", VFloat 0.1)].

Fixpoint loop_events (sim : value) (n k : nat) : list event :=
  match n with
  | 0 => []
  | S n' =>
      Bind "i" (VItem (columns sim) k) :: Call (column_plot sim k)
        :: loop_events sim n' (S k)
  end.

(** The events of the statements that follow the loop. *)
Definition final_plots (df pred plt : value) : list event := [
  Call (VCall (VAttr (VSubscript df (VStr "mean")) "plot") []
          [("label", VStr "mean prediction")]);
  Call (VCall (VAttr (VSubscript df (VStr "pi_lower")) "plot") []
          [("linestyle", VStr "--"); ("color", VStr "tab:blue");
           ("label", VStr "95% interval")]);
  Call (VCall (VAttr (VSubscript df (VStr "pi_upper")) "plot") []
          [("linestyle", VStr "--"); ("color", VStr "tab:blue");
           ("label", VStr "_")]);
  Call (VCall (VAttr (VAttr pred "endog") "plot") [] [("label", VStr "data")]);
  Call (VCall (VAttr plt "legend") [] []) ].

End Objects.
Import Objects.

(* ===================================================================== *)
(** ** The run in which no call raises *)
(* ===================================================================== *)

(** The notebook splits around its only loop. *)
Definition before_loop : list stmt := firstn 50 (code notebook).
Definition plot_loop : stmt := nth 50 (code notebook) (SMagic "").
Definition after_loop : list stmt := skipn 51 (code notebook).

(** The state reached when the loop starts. *)
Definition loop_entry : state :=
  final (exec_block (quiet_oracle 0) before_loop init).

(** The events of the whole notebook when the loop makes [n] passes. *)
Definition nominal (n : nat) : list event :=
  trace loop_entry
    ++ Call (columns simulated) :: loop_events simulated n 0
    ++ final_plots frame prediction plt.

(* ===================================================================== *)
(** ** Properties of events and traces *)
(* ===================================================================== *)

(** Every binding of [x] binds it to [v]. *)
Definition bound_to (x : string) (v : value) (ev : event) : Prop :=
  match ev with
  | Bind y w => if String.eqb x y then w = v else True
  | Call _ => True
  end.

Definition bound_to_b (x : string) (v : value) (ev : event) : bool :=
  match ev with
  | Bind y w => if String.eqb x y then value_eqb w v else true
  | Call _ => true
  end.

(** Every call named in [names] is made on the receiver [r]. *)
Definition made_on (names : list string) (r : value) (ev : event) : Prop :=
  match ev with
  | Call c => if is_call_to names c then receiver c = Some r else True
  | Bind _ _ => True
  end.

Definition made_on_b (names : list string) (r : value) (ev : event) : bool :=
  match ev with
  | Call c =>
      if is_call_to names c then
        match receiver c with
        | Some r' => value_eqb r' r
        | None => false
        end
      else true
  | Bind _ _ => true
  end.

(** Every call named in [names] is the call [c0]. *)
Definition is_the_call (names : list string) (c0 : value) (ev : event)
  : Prop :=
  match ev with
  | Call c => if is_call_to names c then c = c0 else True
  | Bind _ _ => True
  end.

Definition is_the_call_b (names : list string) (c0 : value) (ev : event)
  : bool :=
  match ev with
  | Call c => if is_call_to names c then value_eqb c c0 else true
  | Bind _ _ => true
  end.





(** *** Kinds of steps *)

Definition loads_dataset (ev : event) : bool :=
  is_bind_of "oildata" ev || is_bind_of "austourists_data" ev.

Definition constructs_model (ev : event) : bool :=
  match ev with Call c => is_model c | Bind _ _ => false end.

Definition is_modelling (ev : event) : bool :=
  match ev with Call c => is_call_to modelling_api c | Bind _ _ => false end.

Definition is_plotting (ev : event) : bool :=
  match ev with Call c => is_call_to plotting_api c | Bind _ _ => false end.

(** The sequence as the overview words it: both datasets before any model
    construction, and every plotting call after every modelling call. *)
Definition datasets_first (tr : list event) : Prop :=
  forall i j a b, tr !! i = Some a -> tr !! j = Some b ->
    loads_dataset a = true -> constructs_model b = true -> (i < j)%nat.

Definition plotting_last (tr : list event) : Prop :=
  forall i j a b, tr !! i = Some a -> tr !! j = Some b ->
    is_modelling a = true -> is_plotting b = true -> (i < j)%nat.

(** The literal data a model was built from: the first argument of the
    [Series] call that is the model's first argument. *)
Definition dataset_of (model : value) : option value :=
  match endog model with
  | Some (VCall _ (data :: _) _) => Some data
  | _ => None
  end.

Definition dataset_loaded (data : value) (seen : list event) : bool :=
  existsb (fun ev => match ev with
                     | Bind x v => loads_dataset ev && value_eqb v data
                     | Call _ => false
                     end) seen.

(** What a step needs from the events [seen] before it:
    - every call whose result it uses was made before;
    - a model construction builds on a dataset loaded before;
    - [fit] is called on a model;
    - [get_prediction] and [simulate] are called on a fit. *)
Definition step_ok (seen : list event) (ev : event) : bool :=
  match ev with
  | Bind _ _ => true
  | Call c =>
      forallb (fun d => occurs (Call d) seen) (inputs c)
      && (if is_model c then
            match dataset_of c with
            | Some data => dataset_loaded data seen
            | None => false
            end
          else true)
      && (if is_call_to ["fit"] c then
            match receiver c with
            | Some m => is_model m
            | None => false
            end
          else true)
      && (if is_call_to ["get_prediction"; "simulate"] c then
            match receiver c with
            | Some f => is_call_to ["fit"] f
            | None => false
            end
          else true)
  end.

(** Every event of [tr] has what it needs before it. *)
Definition ordered (tr : list event) : Prop :=
  forall tr1 ev tr2, tr = tr1 ++ ev :: tr2 -> step_ok tr1 ev = true.

Fixpoint ordered_from (seen tr : list event) : bool :=
  match tr with
  | [] => true
  | ev :: tr' => step_ok seen ev && ordered_from (seen ++ [ev]) tr'
  end.

(** *** Kinds of statements *)

Inductive kind : Type := Setup | DataDefinition | ApiCall | Plotting | Other.

(** The call an expression is built around: attribute reads around a call
    are looked through. *)
Fixpoint head_call (e : expr) : option expr :=
  match e with
  | ECall _ _ _ => Some e
  | EAttr e1 _ => head_call e1
  | _ => None
  end.

Definition is_float_list (e : expr) : bool :=
  match e with
  | EList es =>
      forallb (fun x => match x with
                        | EFloat _ | ENeg (EFloat _) => true
                        | _ => false
                        end) es
  | _ => false
  end.

Definition classify_rhs (e : expr) : kind :=
  if is_float_list e then DataDefinition
  else match head_call e with
       | Some c =>
           if called_as ["Series"; "date_range"] c then DataDefinition
           else if called_as modelling_api c then ApiCall
           else if called_as plotting_api c then Plotting
           else Other
       | None => Other
       end.

Fixpoint classify (s : stmt) : kind :=
  match s with
  | SImport _ _ | SFromImport _ _ | SMagic _ => Setup
  | SAssign (EName _) e => classify_rhs e
  | SAssign (ESubscript (EAttr (EName _) a) _) _ =>
      if String.eqb a "rcParams" then Plotting else Other
  | SExpr (EName _) => Plotting
  | SExpr e => classify_rhs e
  | SFor _ _ body =>
      if forallb (fun s1 => match classify s1 with
                            | Plotting => true
                            | _ => false
                            end) body
      then Plotting else Other
  | _ => Other
  end.

Definition is_other (k : kind) : bool :=
  match k with Other => true | _ => false end.

Definition count_calls (names : list string) (nb : notebook_t) : nat :=
  length (List.filter (called_as names) (calls nb)).

(** *** Configuration arguments *)

(** The configuration parameters the data model lists: error, trend and
    seasonal kind, damping flag, seasonal period count, initialization
    method, simulation anchor, repetition count. *)
Definition documented_config : list string :=
  ["error"; "trend"; "seasonal"; "damped_trend"; "seasonal_periods";
   "initialization_method"; "anchor"; "repetitions"].

Definition same_names (a b : list string) : bool :=
  forallb (fun x => mem x b) a && forallb (fun x => mem x a) b.

(** *** Effects outside the process *)

Inductive effect : Type := InProcess | Display | Persist.

(** The kinds of object the notebook handles: the two library modules it
    calls into, the plot settings, and what the library calls return. *)
Inductive obj : Type :=
| KPandas | KPyplot | KSettings
| KSeries | KIndex | KModel | KResults | KSummary | KPrediction | KFrame
| KIndexer | KShape | KNumber | KRange | KDrawing | KNothing.

Definition kwargs_within (allowed : list string)
  (kw : list (string * value)) : bool :=
  forallb (fun kv => mem (fst kv) allowed) kw.

Definition attribute_of (k : obj) (a : string) : option obj :=
  match k with
  | KPyplot => if String.eqb a "rcParams" then Some KSettings else None
  | KResults => if String.eqb a "fittedvalues" then Some KSeries else None
  | KPrediction => if String.eqb a "endog" then Some KSeries else None
  | KFrame =>
      if String.eqb a "iloc" then Some KIndexer
      else if String.eqb a "shape" then Some KShape
      else None
  | _ => None
  end.

Definition item_of (k : obj) : option obj :=
  match k with
  | KFrame | KIndexer => Some KSeries
  | KShape => Some KNumber
  | _ => None
  end.

(** What the method [m] of an object of kind [k] returns, for the entries
    of pandas, the modelling library and pyplot that the notebook uses, with
    the number of positional arguments and the keyword arguments they are
    used with; [None] for anything else. *)
Definition method_of (k : obj) (m : string) (nargs : nat)
  (kw : list (string * value)) : option obj :=
  let entry (name : string) (n : nat) (allowed : list string) (r : obj) :=
    if String.eqb m name && Nat.eqb nargs n && kwargs_within allowed kw
    then Some r else None in
  let either (a b : option obj) :=
    match a with Some _ => a | None => b end in
  match k with
  | KPandas =>
      either (entry "Series" 1 ["index"] KSeries)
             (entry "date_range" 2 ["freq"] KIndex)
  | KModel =>
      either (entry "fit" 0 ["maxiter"] KResults)
             (entry "smooth" 1 [] KResults)
  | KResults =>
      either (entry "summary" 0 [] KSummary)
        (either (entry "get_prediction" 0 ["start"; "end"] KPrediction)
           (entry "simulate" 0 ["anchor"; "nsimulations"; "repetitions"]
              KFrame))
  | KPrediction => entry "summary_frame" 0 ["alpha"] KFrame
  | KSeries =>
      entry "plot" 0 ["label"; "linestyle"; "color"; "alpha"] KDrawing
  | KPyplot =>
      either (entry "ylabel" 1 [] KDrawing) (entry "legend" 0 [] KDrawing)
  | KSettings => entry "__setitem__" 2 [] KNothing
  | _ => None
  end.

(** The kind of object a value is, followed from the module or constructor
    it comes from through every call, attribute and subscript. *)
Fixpoint object_of (v : value) : option obj :=
  match v with
  | VModule m =>
      if String.eqb m "pandas" then Some KPandas
      else if String.eqb m "matplotlib.pyplot" then Some KPyplot
      else None
  | VAttr r a =>
      match object_of r with
      | Some k => attribute_of k a
      | None => None
      end
  | VSubscript r _ =>
      match object_of r with
      | Some k => item_of k
      | None => None
      end
  | VCall (VAttr r m) args kw =>
      match object_of r with
      | Some k => method_of k m (length args) kw
      | None => None
      end
  | VCall (VImported _ _) [series] kw =>
      match object_of series with
      | Some KSeries =>
          if is_model v
             && kwargs_within ["error"; "trend"; "seasonal"; "damped_trend";
                               "seasonal_periods"; "initialization_method"] kw
          then Some KModel else None
      | _ => None
      end
  | VCall (VBuiltin n) [count] [] =>
      match object_of count with
      | Some KNumber => if String.eqb n "range" then Some KRange else None
      | _ => None
      end
  | _ => None
  end.

(** What a call does outside the values it returns.  A plotting call on a
    series or on pyplot draws on the inline display; the other entries that
    [object_of] knows compute in memory or change a setting of the running
    process; a call that [object_of] does not know counts as persisting. *)
Definition effect_of (c : value) : effect :=
  match c with
  | VCall _ _ _ =>
      match object_of c with
      | Some KDrawing => Display
      | Some _ => InProcess
      | None => Persist
      end
  | _ => Persist
  end.

Definition is_persist (e : effect) : bool :=
  match e with Persist => true | _ => false end.

(** The libraries the notebook may load and the magics it may run: the
    inline magic selects the display the plots are drawn on. *)
Definition libraries : list string :=
  ["numpy"; "matplotlib.pyplot"; "pandas";
   "statsmodels.tsa.exponential_smoothing.ets"].

Definition display_magics : list string := ["matplotlib inline"].

(** The module an event loads: a binding of a module or of a name imported
    from a module. *)
Definition imported_module (ev : event) : option string :=
  match ev with
  | Bind _ (VModule m) | Bind _ (VImported m _) => Some m
  | _ => None
  end.





(** What the steps of a run do to the state outside the process: a call, the
    loading of a module, the running of a magic line. *)
Record hooks (W : Type) : Type := mkHooks {
  on_call : value -> W -> W;
  on_import : string -> W -> W;
  on_magic : string -> W -> W
}.
Arguments mkHooks {W} _ _ _.
Arguments on_call {W} _ _ _.
Arguments on_import {W} _ _ _.
Arguments on_magic {W} _ _ _.

Definition step_world {W : Type} (h : hooks W) (w : W) (ev : event) : W :=
  match ev with
  | Call c => on_call h c w
  | Bind _ _ =>
      match imported_module ev with
      | Some m => on_import h m w
      | None => w
      end
  end.

(** The state outside the process after the magic lines [lines] and the
    events [tr].  The magics are counted first: in the notebook they stand
    in the first cell, which makes no call. *)
Definition world_after {W : Type} (h : hooks W) (lines : list string)
  (tr : list event) (w : W) : W :=
  fold_left (step_world h) tr (fold_left (fun w l => on_magic h l w) lines w).


(** The events that follow the first occurrence of [x]. *)
Fixpoint after (x : event) (tr : list event) : list event :=
  match tr with
  | [] => []
  | ev :: tr' => if event_eqb x ev then tr' else after x tr'
  end.

(** Bindings, plotting calls and the [range] of the plotting loop. *)
Definition winds_down (ev : event) : bool :=
  match ev with
  | Bind _ _ => true
  | Call c => is_call_to (plotting_api ++ builtins) c
  end.

(** *** Sample oracles *)

(** The oracle under which every [fit] fails to converge. *)
Definition failing_fit : oracle :=
  mkOracle (fun _ c => if is_call_to ["fit"] c
                       then Some "ConvergenceError" else None)
           (fun _ => 0).

(** A world that logs every persisting call, every module outside the
    libraries and every magic other than the display one. *)
Definition log_persisting : hooks (list value) :=
  mkHooks
    (fun c w => if is_persist (effect_of c) then c :: w else w)
    (fun m w => if mem m libraries then w else VModule m :: w)
    (fun l w => if mem l display_magics then w else VStr l :: w).

(** *** Objects and views *)







(** *** Results of calls *)


(** A sample of what the library may return: the result of [simulate]
    depends on what happened before the call, the result of every other
    call on the call alone. *)
Definition sample_result (h : list event) (c : value) : value * nat :=
  if is_call_to ["simulate"] c then (c, length h) else (c, 0).

Definition is_simulate (ev : event) : bool :=
  match ev with Call c => is_call_to ["simulate"] c | Bind _ _ => false end.

(* ===================================================================== *)
(** ** Scopes, final state and order: further definitions *)
(* ===================================================================== *)

(** *** Names read *)

(** The names an expression reads, in evaluation order. *)
Fixpoint reads_e (e : expr) : list string :=
  match e with
  | EName x => [x]
  | EFloat _ | EInt _ | EStr _ | EBool _ | ESliceAll => []
  | ENeg e1 => reads_e e1
  | EList es | ETuple es => flat_map reads_e es
  | EAttr e1 _ => reads_e e1
  | ESubscript e1 i => reads_e e1 ++ reads_e i
  | ECall f args kwargs =>
      reads_e f ++ flat_map reads_e args
        ++ flat_map (fun kv => reads_e (snd kv)) kwargs
  end.

(** The names a statement reads; the target of a plain assignment is
    written, not read. *)
Fixpoint reads_s (s : stmt) : list string :=
  match s with
  | SImport _ _ | SFromImport _ _ | SMagic _ => []
  | SAssign (EName _) e => reads_e e
  | SAssign t e | SAugAssign t e => reads_e e ++ reads_e t
  | SDelete t => reads_e t
  | SExpr e | SRaise e => reads_e e
  | SFor _ it body => reads_e it ++ flat_map reads_s body
  | SWhile c body | SWith c body => reads_e c ++ flat_map reads_s body
  | SIf c body orelse =>
      reads_e c ++ flat_map reads_s body ++ flat_map reads_s orelse
  | STry body handler => flat_map reads_s body ++ flat_map reads_s handler
  | SFunctionDef _ body | SClassDef _ body => flat_map reads_s body
  end.

Definition reads (nb : notebook_t) : list string :=
  flat_map reads_s (code nb).

(** The names a notebook binds and never reads. *)
Definition never_read (nb : notebook_t) : list string :=
  List.filter (fun x => negb (mem x (reads nb))) (flat_map binds (code nb)).

(** *** Scope check *)

(** A name is known when it is in [D] or is a builtin. *)
Definition known (D : list string) (x : string) : bool :=
  mem x D || mem x builtins.

Definition scoped_e (D : list string) (e : expr) : bool :=
  forallb (known D) (reads_e e).

(** [scoped_s D s] checks that [s] reads known names only and returns the
    names known after [s].  Names bound inside a loop body are not counted
    as known after the loop, which may make no pass.  Statement forms
    without a meaning in [exec], and [try], are not accepted. *)
Fixpoint scoped_s (D : list string) (s : stmt) : option (list string) :=
  match s with
  | SImport _ x => Some (x :: D)
  | SFromImport _ n => Some (n :: D)
  | SMagic _ => Some D
  | SAssign (EName x) e => if scoped_e D e then Some (x :: D) else None
  | SAssign (ESubscript o i) e =>
      if scoped_e D e && scoped_e D o && scoped_e D i then Some D else None
  | SAssign (EAttr o _) e =>
      if scoped_e D e && scoped_e D o then Some D else None
  | SExpr e => if scoped_e D e then Some D else None
  | SFor x it body =>
      if scoped_e D it then
        match (fix block (D : list string) (ss : list stmt)
                 : option (list string) :=
                 match ss with
                 | [] => Some D
                 | s1 :: ss' =>
                     match scoped_s D s1 with
                     | Some D1 => block D1 ss'
                     | None => None
                     end
                 end) (x :: D) body with
        | Some _ => Some D
        | None => None
        end
      else None
  | _ => None
  end.

Fixpoint scoped_block (D : list string) (ss : list stmt)
  : option (list string) :=
  match ss with
  | [] => Some D
  | s1 :: ss' =>
      match scoped_s D s1 with
      | Some D1 => scoped_block D1 ss'
      | None => None
      end
  end.

(** Two states agree on [E]: same trace, and the same value, or none, for
    every name known in [E]. *)
Definition agree (E : list string) (s1 s2 : state) : Prop :=
  trace s1 = trace s2 /\
  forall x, known E x = true -> env s1 !! x = env s2 !! x.

(** Two outcomes of one computation started in [s1] and in [s2]: they end
    the same way, with the same value or exception; they keep every
    agreement of [s1] and [s2]; after a normal end they agree on [D1]. *)
Definition twin {A} (D1 : list string) (s1 s2 : state)
  (o1 o2 : outcome A) : Prop :=
  (forall E, agree E s1 s2 -> agree E (final o1) (final o2)) /\
  match o1, o2 with
  | Normal a t1, Normal b t2 => a = b /\ agree D1 t1 t2
  | Raised x _, Raised y _ => x = y
  | Stuck _, Stuck _ => True
  | _, _ => False
  end.

Definition Twin {A} (D D1 : list string) (m : M A) : Prop :=
  forall s1 s2, agree D s1 s2 -> twin D1 s1 s2 (m s1) (m s2).

(** *** The state after a run *)

(** The environment after the plotting loop has made [n] passes: the loop
    variable holds the last item, or is not bound at all. *)
Definition final_env (n : nat) : gmap string value :=
  match n with
  | 0 => env loop_entry
  | S m => <["i" := VItem (columns simulated) m]> (env loop_entry)
  end.

Definition final_state (n : nat) : state :=
  mkState (final_env n) (nominal n).

Definition austourists_params : value :=
  VList [VFloat 0.35445427; VFloat 0.03200749; VFloat 0.39993387;
         VFloat 0.97999997; VFloat 24.01278357;
         VFloat 0.97770147; VFloat 1.76951063; VFloat (-0.50735902);
         VFloat (-6.61171798); VFloat 5.34956637].

(** *** Kinds of calls *)

Definition is_summary (ev : event) : bool :=
  match ev with Call c => is_call_to ["summary"] c | Bind _ _ => false end.

Definition summary_of (fit : value) : event :=
  Call (VCall (VAttr fit "summary") [] []).

(** A plot of one column of a frame: [frame.iloc[...].plot(...)]. *)
Definition is_column_plot (ev : event) : bool :=
  match ev with
  | Call (VCall (VAttr (VSubscript (VAttr _ a) _) m) _ _) =>
      String.eqb a "iloc" && String.eqb m "plot"
  | _ => false
  end.

(** The store that sets the figure size. *)
Definition figsize_store : value :=
  VCall (VAttr (VAttr plt "rcParams") "__setitem__")
    [VStr "figure.figsize"; VTuple [VInt 12; VInt 8]] [].

(** A model construction with additive error, additive damped trend, built
    on one of the two series. *)
Definition additive_damped (ev : event) : bool :=
  match ev with
  | Call (VCall f args kw) =>
      if is_model (VCall f args kw) then
        match kwarg "error" kw, kwarg "trend" kw, kwarg "damped_trend" kw with
        | Some e, Some t, Some d =>
            value_eqb e (VStr "add") && value_eqb t (VStr "add")
            && value_eqb d (VBool true)
            && match args with
               | [series] =>
                   value_eqb series Objects.oil
                   || value_eqb series Objects.austourists
               | _ => false
               end
        | _, _, _ => false
        end
      else true
  | _ => true
  end.

(** *** Steps that need something before them *)

(** [holds_along p tr]: every event of [tr] satisfies [p] of the events
    before it. *)
Definition holds_along (p : list event -> event -> bool) (tr : list event)
  : Prop :=
  forall tr1 ev tr2, tr = tr1 ++ ev :: tr2 -> p tr1 ev = true.

Fixpoint checked_from (p : list event -> event -> bool)
  (seen tr : list event) : bool :=
  match tr with
  | [] => true
  | ev :: tr' => p seen ev && checked_from p (seen ++ [ev]) tr'
  end.

(** [p] keeps holding when more has been seen. *)
Definition grows (p : list event -> event -> bool) : Prop :=
  forall seen seen' ev,
    (forall x, In x seen -> In x seen') ->
    p seen ev = true -> p seen' ev = true.

(** A plotting call needs the figure size to have been set. *)
Definition sized_before (seen : list event) (ev : event) : bool :=
  if is_plotting ev then occurs (Call figsize_store) seen else true.

Definition is_call_event (ev : event) : bool :=
  match ev with Call _ => true | Bind _ _ => false end.

(** A cell run on its own in a fresh kernel stops at a name it does not
    know, before any external call is made. *)
Definition needs_earlier_cells (O : oracle) (src : list stmt) : Prop :=
  exists x st, exec_block O src init = Raised (NameError x) st
               /\ List.filter is_call_event (trace st) = [].

(** An environment left over from earlier work in the same kernel. *)
Definition stale_env : gmap string value :=
  <["model" := VStr "stale"]> (<["i" := VInt 7]> ∅).

(* ===================================================================== *)
(** * Properties *)
(* ===================================================================== *)

Lemma expr_induction (P : expr -> Prop) :
  (forall x, P (EName x)) ->
  (forall q, P (EFloat q)) ->
  (forall n, P (EInt n)) ->
  (forall s, P (EStr s)) ->
  (forall b, P (EBool b)) ->
  (forall e, P e -> P (ENeg e)) ->
  (forall es, Forall P es -> P (EList es)) ->
  (forall es, Forall P es -> P (ETuple es)) ->
  P ESliceAll ->
  (forall e a, P e -> P (EAttr e a)) ->
  (forall e i, P e -> P i -> P (ESubscript e i)) ->
  (forall f args kw, P f -> Forall P args ->
     Forall (fun kv => P (snd kv)) kw -> P (ECall f args kw)) ->
  forall e, P e.
Proof.
  intros HName HFloat HInt HStr HBool HNeg HList HTuple HSlice HAttr HSub HCall.
  fix IH 1. intros e. destruct e as [x|q|n|s|b|e|es|es| |e a|e i|f args kw].
  - apply HName.
  - apply HFloat.
  - apply HInt.
  - apply HStr.
  - apply HBool.
  - apply HNeg, IH.
  - apply HList. induction es as [|e es IHes]; constructor; [apply IH | exact IHes].
  - apply HTuple. induction es as [|e es IHes]; constructor; [apply IH | exact IHes].
  - apply HSlice.
  - apply HAttr, IH.
  - apply HSub; apply IH.
  - apply HCall.
    + apply IH.
    + induction args as [|e es IHes]; constructor; [apply IH | exact IHes].
    + induction kw as [|[k e] kw IHkw]; constructor; [apply IH | exact IHkw].
Qed.

Lemma stmt_induction (P : stmt -> Prop) :
  (forall m x, P (SImport m x)) ->
  (forall m n, P (SFromImport m n)) ->
  (forall l, P (SMagic l)) ->
  (forall t e, P (SAssign t e)) ->
  (forall t e, P (SAugAssign t e)) ->
  (forall t, P (SDelete t)) ->
  (forall e, P (SExpr e)) ->
  (forall x it body, Forall P body -> P (SFor x it body)) ->
  (forall c body, Forall P body -> P (SWhile c body)) ->
  (forall c body orelse, Forall P body -> Forall P orelse ->
     P (SIf c body orelse)) ->
  (forall body handler, Forall P body -> Forall P handler ->
     P (STry body handler)) ->
  (forall e, P (SRaise e)) ->
  (forall c body, Forall P body -> P (SWith c body)) ->
  (forall n body, Forall P body -> P (SFunctionDef n body)) ->
  (forall n body, Forall P body -> P (SClassDef n body)) ->
  forall s, P s.
Proof.
  intros H1 H2 H3 H4 H5 H6 H7 HFor HWhile HIf HTry HRaise HWith HDef HClass.
  fix IH 1. intros s.
  destruct s as [m x|m n|l|t e|t e|t|e|x it body|c body|c body orelse
                |body handler|e|c body|n body|n body].
  - apply H1.
  - apply H2.
  - apply H3.
  - apply H4.
  - apply H5.
  - apply H6.
  - apply H7.
  - apply HFor.
    induction body as [|s1 ss IHss]; constructor; [apply IH | exact IHss].
  - apply HWhile.
    induction body as [|s1 ss IHss]; constructor; [apply IH | exact IHss].
  - apply HIf.
    + induction body as [|s1 ss IHss]; constructor; [apply IH | exact IHss].
    + induction orelse as [|s1 ss IHss]; constructor; [apply IH | exact IHss].
  - apply HTry.
    + induction body as [|s1 ss IHss]; constructor; [apply IH | exact IHss].
    + induction handler as [|s1 ss IHss]; constructor; [apply IH | exact IHss].
  - apply HRaise.
  - apply HWith.
    induction body as [|s1 ss IHss]; constructor; [apply IH | exact IHss].
  - apply HDef.
    induction body as [|s1 ss IHss]; constructor; [apply IH | exact IHss].
  - apply HClass.
    induction body as [|s1 ss IHss]; constructor; [apply IH | exact IHss].
Qed.

Section Faithful.
Variable O : oracle.

Lemma quiet_nil : quiet O [].
Proof. intros tr1 c tr2 H. destruct tr1; discriminate H. Qed.

Lemma quiet_snoc_bind tr x v : quiet O tr -> quiet O (tr ++ [Bind x v]).
Proof.
  intros Hq tr1 c tr2 H.
  destruct tr2 as [|ev tr2 _] using rev_ind.
  - apply app_inj_tail in H as [_ H]. discriminate H.
  - change (tr ++ [Bind x v] = tr1 ++ (Call c :: tr2) ++ [ev]) in H.
    rewrite app_assoc in H. apply app_inj_tail in H as [H _].
    exact (Hq _ _ _ H).
Qed.

Lemma quiet_snoc_call tr c :
  quiet O tr -> raises O tr c = None -> quiet O (tr ++ [Call c]).
Proof.
  intros Hq Hr tr1 c' tr2 H.
  destruct tr2 as [|ev tr2 _] using rev_ind.
  - apply app_inj_tail in H as [H1 H2]. injection H2 as <-. subst tr1. exact Hr.
  - change (tr ++ [Call c] = tr1 ++ (Call c' :: tr2) ++ [ev]) in H.
    rewrite app_assoc in H. apply app_inj_tail in H as [H _].
    exact (Hq _ _ _ H).
Qed.

Lemma quiet_prefix tr tr' : tr `prefix_of` tr' -> quiet O tr' -> quiet O tr.
Proof.
  intros [k ->] Hq tr1 c tr2 ->. apply (Hq tr1 c (tr2 ++ k)).
  now rewrite <- app_assoc.
Qed.

Lemma steady_faithful {A} (m : M A) : steady O m -> faithful O m m.
Proof.
  intros Hs. split.
  - intros st. apply Hs.
  - intros st Hq. destruct (Hs st) as (Hp & Hk & Hn).
    split; [exact Hp|]. split; [reflexivity|].
    destruct (m st) as [a st'|[x|c msg] st'|st'] eqn:E; simpl in *; auto.
    exfalso. exact (Hn c msg st' eq_refl).
Qed.

Lemma steady_ret {A} (a : A) : steady O (ret a).
Proof. intros st. repeat split; auto; try reflexivity; discriminate. Qed.

Lemma steady_stuck {A} : steady O (@stuck A).
Proof. intros st. repeat split; auto; try reflexivity; discriminate. Qed.

Lemma steady_bind_name x v : steady O (bind_name x v).
Proof.
  intros st. repeat split; simpl.
  - now apply prefix_app_r.
  - apply quiet_snoc_bind.
  - discriminate.
Qed.

Lemma steady_lookup_name x : steady O (lookup_name x).
Proof.
  intros st. unfold lookup_name.
  destruct (env st !! x); [|destruct (mem x builtins)];
    repeat split; simpl; auto; try reflexivity; discriminate.
Qed.

Lemma faithful_call c : faithful O (call O c) (call (calm O) c).
Proof.
  split.
  - intros st. unfold call. simpl. now apply prefix_app_r.
  - intros st Hq. unfold call. simpl.
    destruct (raises O (trace st) c) as [msg|] eqn:E; simpl.
    + split; [now apply prefix_app_r|]. split; [reflexivity|].
      exists (trace st). auto.
    + split; [now apply prefix_app_r|]. split; [reflexivity|].
      split; [reflexivity|]. now apply quiet_snoc_call.
Qed.

Lemma faithful_bind {A B} (m m0 : M A) (f f0 : A -> M B) :
  faithful O m m0 -> (forall a, faithful O (f a) (f0 a)) ->
  faithful O (bind m f) (bind m0 f0).
Proof.
  intros [Hm0 Hm] Hf.
  assert (mono0 : forall st,
            trace (final (m0 st)) `prefix_of` trace (final (bind m0 f0 st))).
  { intros st. unfold bind. destruct (m0 st) as [a st1|x st1|st1]; simpl;
      try reflexivity. apply (Hf a). }
  split.
  - intros st. etransitivity; [apply Hm0 | apply mono0].
  - intros st Hq. destruct (Hm st Hq) as (Hp & Hp0 & He).
    specialize (mono0 st). unfold bind in *.
    destruct (m st) as [a st1|[x|c msg] st1|st1] eqn:E; simpl in *.
    + destruct He as [E0 Hq1]. rewrite E0 in *. simpl in *.
      destruct (Hf a) as [_ Hfa]. destruct (Hfa st1 Hq1) as (Hp1 & Hp2 & He1).
      split; [etransitivity; eassumption|]. split; [exact Hp2|exact He1].
    + destruct He as [E0 Hq1]. rewrite E0 in *. simpl in *. auto.
    + split; [exact Hp|]. split; [etransitivity; eassumption|exact He].
    + destruct He as [E0 Hq1]. rewrite E0 in *. simpl in *. auto.
Qed.

Lemma faithful_ret {A} (a : A) : faithful O (ret a) (ret a).
Proof. apply steady_faithful, steady_ret. Qed.

Lemma faithful_eval_list es :
  Forall (fun e => faithful O (eval O e) (eval (calm O) e)) es ->
  faithful O (eval_list O es) (eval_list (calm O) es).
Proof.
  induction 1 as [|e es He Hes IH]; simpl.
  - apply faithful_ret.
  - apply faithful_bind; [exact He|]. intros v.
    apply faithful_bind; [exact IH|]. intros vs. apply faithful_ret.
Qed.

Lemma faithful_eval_kwargs kws :
  Forall (fun kv => faithful O (eval O (snd kv)) (eval (calm O) (snd kv))) kws ->
  faithful O (eval_kwargs O kws) (eval_kwargs (calm O) kws).
Proof.
  induction 1 as [|[k e] kws He Hes IH]; simpl.
  - apply faithful_ret.
  - apply faithful_bind; [exact He|]. intros v.
    apply faithful_bind; [exact IH|]. intros vs. apply faithful_ret.
Qed.

Lemma eval_EList P es :
  eval P (EList es) = (do vs <- eval_list P es ;; ret (VList vs)).
Proof. reflexivity. Qed.

Lemma eval_ETuple P es :
  eval P (ETuple es) = (do vs <- eval_list P es ;; ret (VTuple vs)).
Proof. reflexivity. Qed.

Lemma eval_ECall P f args kwargs :
  eval P (ECall f args kwargs) =
  (do fv <- eval P f ;; do avs <- eval_list P args ;;
   do kvs <- eval_kwargs P kwargs ;; call P (VCall fv avs kvs)).
Proof. reflexivity. Qed.

Lemma faithful_eval e : faithful O (eval O e) (eval (calm O) e).
Proof.
  induction e as [x|q|n|s|b|e IH|es IH|es IH| |e a IH|e i IH IHi|f args kw IHf IHa IHk]
    using expr_induction.
  - apply steady_faithful, steady_lookup_name.
  - apply faithful_ret.
  - apply faithful_ret.
  - apply faithful_ret.
  - apply faithful_ret.
  - simpl. apply faithful_bind; [exact IH|]. intros v. apply faithful_ret.
  - rewrite !eval_EList. apply faithful_bind; [now apply faithful_eval_list|].
    intros vs. apply faithful_ret.
  - rewrite !eval_ETuple. apply faithful_bind; [now apply faithful_eval_list|].
    intros vs. apply faithful_ret.
  - apply faithful_ret.
  - simpl. apply faithful_bind; [exact IH|]. intros v. apply faithful_ret.
  - simpl. apply faithful_bind; [exact IH|]. intros v.
    apply faithful_bind; [exact IHi|]. intros iv. apply faithful_ret.
  - rewrite !eval_ECall. apply faithful_bind; [exact IHf|]. intros fv.
    apply faithful_bind; [now apply faithful_eval_list|]. intros avs.
    apply faithful_bind; [now apply faithful_eval_kwargs|]. intros kvs.
    apply faithful_call.
Qed.

Lemma faithful_assign t v : faithful O (assign O t v) (assign (calm O) t v).
Proof.
  destruct t; simpl; try (apply steady_faithful, steady_stuck).
  - apply steady_faithful, steady_bind_name.
  - apply faithful_bind; [apply faithful_eval|]. intros ov.
    apply faithful_bind; [apply faithful_call|]. intros _. apply faithful_ret.
  - apply faithful_bind; [apply faithful_eval|]. intros ov.
    apply faithful_bind; [apply faithful_eval|]. intros iv.
    apply faithful_bind; [apply faithful_call|]. intros _. apply faithful_ret.
Qed.

Lemma faithful_exec_block ss :
  Forall (fun s => faithful O (exec O s) (exec (calm O) s)) ss ->
  faithful O (exec_block O ss) (exec_block (calm O) ss).
Proof.
  induction 1 as [|s ss Hs Hss IH]; simpl.
  - apply faithful_ret.
  - apply faithful_bind; [exact Hs|]. intros _. exact IH.
Qed.

Lemma faithful_loop x itv body n k :
  faithful O (exec_block O body) (exec_block (calm O) body) ->
  faithful O (loop O x itv body n k) (loop (calm O) x itv body n k).
Proof.
  intros Hb. revert k. induction n as [|n IH]; intros k; simpl.
  - apply faithful_ret.
  - apply faithful_bind; [apply steady_faithful, steady_bind_name|]. intros _.
    apply faithful_bind; [exact Hb|]. intros _. apply IH.
Qed.

Lemma exec_SFor P x it body :
  exec P (SFor x it body) =
  (do itv <- eval P it ;; loop P x itv body (count P itv) 0).
Proof. reflexivity. Qed.

Lemma handler_free_body (ss : list stmt) :
  existsb (contains is_try) ss = false ->
  Forall (fun s => handler_free s = true) ss.
Proof.
  induction ss as [|s ss IH]; simpl; intros H; constructor.
  - unfold handler_free. apply orb_false_elim in H as [-> _]. reflexivity.
  - apply IH. now apply orb_false_elim in H as [_ ->].
Qed.

Lemma faithful_exec s :
  handler_free s = true -> faithful O (exec O s) (exec (calm O) s).
Proof.
  induction s as [m x|m n|l|t e|t e|t|e|x it body IH|c body IH
                 |c body orelse IH1 IH2|body handler IH1 IH2|e|c body IH
                 |n body IH|n body IH] using stmt_induction;
    intros Hf; try (apply steady_faithful, steady_stuck).
  - apply steady_faithful, steady_bind_name.
  - apply steady_faithful, steady_bind_name.
  - apply faithful_ret.
  - simpl. apply faithful_bind; [apply faithful_eval|]. intros v.
    apply faithful_assign.
  - simpl. apply faithful_bind; [apply faithful_eval|]. intros v.
    apply faithful_ret.
  - rewrite !exec_SFor. apply faithful_bind; [apply faithful_eval|].
    intros itv. change (count (calm O) itv) with (count O itv).
    apply faithful_loop, faithful_exec_block.
    unfold handler_free in Hf. simpl in Hf. apply negb_true_iff in Hf.
    apply handler_free_body in Hf.
    rewrite Forall_forall in *. intros s Hs. apply IH; auto.
  - discriminate Hf.
Qed.

End Faithful.

(** *** The run in which no call raises *)

Lemma exec_block_app P ss1 ss2 st :
  exec_block P (ss1 ++ ss2) st =
  (do _ <- exec_block P ss1 ;; exec_block P ss2) st.
Proof.
  revert st. induction ss1 as [|s ss1 IH]; intros st; simpl.
  - reflexivity.
  - unfold bind. destruct (exec P s st) as [[] st1|x st1|st1]; auto.
Qed.

Lemma code_split : code notebook = before_loop ++ plot_loop :: after_loop.
Proof. reflexivity. Qed.

Lemma before_loop_run O :
  exec_block (calm O) before_loop init = Normal tt loop_entry.
Proof. vm_compute. reflexivity. Qed.

Lemma lookup_name_bound x v st :
  env st !! x = Some v -> lookup_name x st = Normal v st.
Proof. intros H. unfold lookup_name. now rewrite H. Qed.

Lemma lookup_name_builtin x st :
  env st !! x = None -> mem x builtins = true ->
  lookup_name x st = Normal (VBuiltin x) st.
Proof. intros H1 H2. unfold lookup_name. now rewrite H1, H2. Qed.

Lemma loop_run O sim n : forall k st,
  env st !! "simulated" = Some sim ->
  exists st',
    loop (calm O) "i" (columns sim)
      [SExpr (method
         (ESubscript (EAttr (EName "simulated") "iloc")
                     (ETuple [ESliceAll; EName "i"]))
         "plot" []
         [("label", EStr "_"); ("color", EStr "gray"); ("alpha", EFloat 0.1)])]
      n k st = Normal tt st'
    /\ trace st' = trace st ++ loop_events sim n k
    /\ (forall x, x <> "i" -> env st' !! x = env st !! x).
Proof.
  induction n as [|n IH]; intros k st Hsim.
  - exists st. simpl. rewrite app_nil_r. auto.
  - set (st1 := mkState (<["i" := VItem (columns sim) k]> (env st))
                  (trace st ++ [Bind "i" (VItem (columns sim) k)])).
    set (st2 := mkState (env st1) (trace st1 ++ [Call (column_plot sim k)])).
    assert (H1 : env st1 !! "simulated" = Some sim).
    { simpl. rewrite lookup_insert_ne by discriminate. exact Hsim. }
    assert (H2 : env st1 !! "i" = Some (VItem (columns sim) k)).
    { simpl. apply lookup_insert_eq. }
    destruct (IH (S k) st2 H1) as (st' & Hrun & Htr & Henv).
    exists st'. split; [|split].
    + cbn [loop]. unfold bind at 1. cbn [bind_name]. fold st1.
      cbn -[lookup_name loop st1].
      unfold bind, ret. rewrite (lookup_name_bound _ _ _ H1). cbv beta iota.
      rewrite (lookup_name_bound _ _ _ H2). cbv beta iota.
      unfold call. cbn [calm raises]. cbv beta iota zeta. exact Hrun.
    + rewrite Htr. simpl. rewrite <- !app_assoc. reflexivity.
    + intros x Hx. rewrite (Henv x Hx). simpl.
      apply lookup_insert_ne. congruence.
Qed.

Lemma plot_loop_run O sim st :
  env st !! "simulated" = Some sim -> env st !! "range" = None ->
  exists st',
    exec (calm O) plot_loop st = Normal tt st'
    /\ trace st' =
       trace st ++ Call (columns sim)
         :: loop_events sim (count O (columns sim)) 0
    /\ (forall x, x <> "i" -> env st' !! x = env st !! x).
Proof.
  intros Hsim Hrange.
  set (st1 := mkState (env st) (trace st ++ [Call (columns sim)])).
  destruct (loop_run O sim (count O (columns sim)) 0 st1 Hsim)
    as (st' & Hrun & Htr & Henv).
  exists st'. split; [|split].
  - change plot_loop with
      (SFor "i"
         (ECall (EName "range")
            [ESubscript (EAttr (EName "simulated") "shape") (EInt 1)] [])
         [SExpr (method
            (ESubscript (EAttr (EName "simulated") "iloc")
                        (ETuple [ESliceAll; EName "i"]))
            "plot" []
            [("label", EStr "_"); ("color", EStr "gray");
             ("alpha", EFloat 0.1)])]).
    rewrite exec_SFor. cbn -[lookup_name loop].
    unfold bind, ret.
    rewrite (lookup_name_builtin _ _ Hrange eq_refl). cbv beta iota.
    rewrite (lookup_name_bound _ _ _ Hsim). cbv beta iota.
    unfold call. cbn [calm raises count]. cbv beta iota zeta. exact Hrun.
  - rewrite Htr. simpl. rewrite <- app_assoc. reflexivity.
  - exact Henv.
Qed.

Lemma after_loop_run O df pred pl st :
  env st !! "df" = Some df -> env st !! "pred" = Some pred ->
  env st !! "plt" = Some pl ->
  exec_block (calm O) after_loop st =
  Normal tt (mkState (env st) (trace st ++ final_plots df pred pl)).
Proof.
  intros Hdf Hpred Hplt.
  change after_loop with (tl cell_plot_simulations).
  cbn -[lookup_name]. unfold bind, ret.
  repeat (rewrite (lookup_name_bound "df" df) by exact Hdf; cbv beta iota;
          unfold call at 1; cbn [calm raises env trace]; cbv beta iota zeta).
  rewrite (lookup_name_bound "pred" pred) by exact Hpred; cbv beta iota.
  unfold call at 1; cbn [calm raises env trace]; cbv beta iota zeta.
  rewrite (lookup_name_bound "plt" pl) by exact Hplt; cbv beta iota.
  unfold call at 1; cbn [calm raises env trace]; cbv beta iota zeta.
  f_equal. f_equal. rewrite <- !app_assoc. reflexivity.
Qed.

Lemma nominal_run O :
  exists st,
    run (calm O) notebook = Normal tt st
    /\ trace st = nominal (count O (columns simulated)).
Proof.
  unfold run. rewrite code_split, exec_block_app. unfold bind at 1.
  rewrite before_loop_run. cbn [exec_block]. unfold bind at 1.
  destruct (plot_loop_run O simulated loop_entry) as (st1 & Hrun & Htr & Henv).
  { vm_compute. reflexivity. }
  { vm_compute. reflexivity. }
  rewrite Hrun.
  rewrite (after_loop_run O frame prediction plt).
  - eexists. split; [reflexivity|]. simpl. rewrite Htr. unfold nominal.
    rewrite <- app_assoc. reflexivity.
  - rewrite Henv by discriminate. vm_compute. reflexivity.
  - rewrite Henv by discriminate. vm_compute. reflexivity.
  - rewrite Henv by discriminate. vm_compute. reflexivity.
Qed.

(** *** Equality of values *)

Lemma value_induction (P : value -> Prop) :
  (forall q, P (VFloat q)) ->
  (forall n, P (VInt n)) ->
  (forall s, P (VStr s)) ->
  (forall b, P (VBool b)) ->
  (forall v, P v -> P (VNeg v)) ->
  (forall vs, Forall P vs -> P (VList vs)) ->
  (forall vs, Forall P vs -> P (VTuple vs)) ->
  P VSliceAll ->
  (forall m, P (VModule m)) ->
  (forall m n, P (VImported m n)) ->
  (forall n, P (VBuiltin n)) ->
  (forall v k, P v -> P (VItem v k)) ->
  (forall v a, P v -> P (VAttr v a)) ->
  (forall v i, P v -> P i -> P (VSubscript v i)) ->
  (forall f args kw, P f -> Forall P args ->
     Forall (fun kv => P (snd kv)) kw -> P (VCall f args kw)) ->
  forall v, P v.
Proof.
  intros HFloat HInt HStr HBool HNeg HList HTuple HSlice HModule HImported
    HBuiltin HItem HAttr HSub HCall.
  fix IH 1. intros v.
  destruct v as [q|n|s|b|v|vs|vs| |m|m n|n|v k|v a|v i|f args kw].
  - apply HFloat.
  - apply HInt.
  - apply HStr.
  - apply HBool.
  - apply HNeg, IH.
  - apply HList. induction vs as [|v vs IHvs]; constructor; [apply IH | exact IHvs].
  - apply HTuple. induction vs as [|v vs IHvs]; constructor; [apply IH | exact IHvs].
  - apply HSlice.
  - apply HModule.
  - apply HImported.
  - apply HBuiltin.
  - apply HItem, IH.
  - apply HAttr, IH.
  - apply HSub; apply IH.
  - apply HCall.
    + apply IH.
    + induction args as [|v vs IHvs]; constructor; [apply IH | exact IHvs].
    + induction kw as [|[k v] kw IHkw]; constructor; [apply IH | exact IHkw].
Qed.

Lemma Q_same_eq p q : Q_same p q = true -> p = q.
Proof.
  destruct p as [a b], q as [c d]. unfold Q_same. simpl.
  intros H. apply andb_prop in H as [H1 H2].
  apply Z.eqb_eq in H1. apply Pos.eqb_eq in H2. now subst.
Qed.

Lemma values_eqb_eq xs : 
  Forall (fun x => forall y, value_eqb x y = true -> x = y) xs ->
  forall ys,
    (fix go (xs ys : list value) : bool :=
       match xs, ys with
       | [], [] => true
       | x :: xs', y :: ys' => value_eqb x y && go xs' ys'
       | _, _ => false
       end) xs ys = true -> xs = ys.
Proof.
  induction 1 as [|x xs Hx Hxs IH]; intros [|y ys] H; try discriminate H.
  - reflexivity.
  - apply andb_prop in H as [H1 H2]. f_equal; auto.
Qed.

Lemma kwargs_eqb_eq kx :
  Forall (fun kv => forall y, value_eqb (snd kv) y = true -> snd kv = y) kx ->
  forall ky,
    (fix go (kx ky : list (string * value)) : bool :=
       match kx, ky with
       | [], [] => true
       | (k, x) :: kx', (l, y) :: ky' =>
           String.eqb k l && value_eqb x y && go kx' ky'
       | _, _ => false
       end) kx ky = true -> kx = ky.
Proof.
  induction 1 as [|[k x] kx Hx Hxs IH]; intros [|[l y] ky] H;
    try discriminate H.
  - reflexivity.
  - apply andb_prop in H as [H H3]. apply andb_prop in H as [H1 H2].
    apply String.eqb_eq in H1. simpl in Hx. f_equal; auto.
    f_equal; auto.
Qed.

Lemma value_eqb_eq a : forall b, value_eqb a b = true -> a = b.
Proof.
  induction a as [q|n|s|x|v IH|vs IH|vs IH| |m|m n|n|v k IH|v s IH
                 |v i IH IHi|f args kw IHf IHa IHk] using value_induction;
    intros [] H; simpl in H; try discriminate H.
  - f_equal. now apply Q_same_eq.
  - f_equal. now apply Z.eqb_eq.
  - f_equal. now apply String.eqb_eq.
  - f_equal. now apply Bool.eqb_prop.
  - f_equal. auto.
  - f_equal. now apply (values_eqb_eq vs).
  - f_equal. now apply (values_eqb_eq vs).
  - reflexivity.
  - f_equal. now apply String.eqb_eq.
  - apply andb_prop in H as [H1 H2]. f_equal; now apply String.eqb_eq.
  - f_equal. now apply String.eqb_eq.
  - apply andb_prop in H as [H1 H2]. f_equal; auto. now apply Nat.eqb_eq.
  - apply andb_prop in H as [H1 H2]. f_equal; auto. now apply String.eqb_eq.
  - apply andb_prop in H as [H1 H2]. f_equal; auto.
  - apply andb_prop in H as [H H3]. apply andb_prop in H as [H1 H2].
    f_equal; auto.
    + now apply (values_eqb_eq args).
    + now apply (kwargs_eqb_eq kw).
Qed.

Lemma event_eqb_eq a b : event_eqb a b = true -> a = b.
Proof.
  destruct a, b; simpl; intros H; try discriminate H.
  - apply andb_prop in H as [H1 H2]. apply String.eqb_eq in H1.
    apply value_eqb_eq in H2. now subst.
  - apply value_eqb_eq in H. now subst.
Qed.

Lemma occurs_In ev tr : occurs ev tr = true -> In ev tr.
Proof.
  unfold occurs. intros H. apply existsb_exists in H as (x & Hx & E).
  apply event_eqb_eq in E. now subst.
Qed.

(** *** Every run follows the run in which no call raises *)

Lemma notebook_handler_free :
  Forall (fun s => handler_free s = true) (code notebook).
Proof. apply handler_free_body. vm_compute. reflexivity. Qed.

Lemma run_faithful O :
  faithful O (exec_block O (code notebook))
             (exec_block (calm O) (code notebook)).
Proof.
  apply faithful_exec_block.
  pose proof notebook_handler_free as Hf. rewrite Forall_forall in *.
  intros s Hs. apply faithful_exec, Hf, Hs.
Qed.

Lemma run_prefix O :
  trace (final (run O notebook))
    `prefix_of` nominal (count O (columns simulated)).
Proof.
  destruct (run_faithful O) as [_ H].
  destruct (H init (quiet_nil O)) as (_ & Hp & _).
  destruct (nominal_run O) as (st & Hrun & Htr).
  unfold run in *. rewrite Hrun in Hp. simpl in Hp. now rewrite Htr in Hp.
Qed.

(** *** Properties that hold of every event of every run *)

Lemma forallb_loop_events (p : event -> bool) sim n : forall k,
  (forall j, p (Bind "i" (VItem (columns sim) j)) = true) ->
  (forall j, p (Call (column_plot sim j)) = true) ->
  forallb p (loop_events sim n k) = true.
Proof.
  induction n as [|n IH]; intros k Hb Hc; simpl.
  - reflexivity.
  - now rewrite Hb, Hc, IH.
Qed.

Lemma forallb_nominal (p : event -> bool) n :
  forallb p (nominal 0) = true ->
  (forall j, p (Bind "i" (VItem (columns simulated) j)) = true) ->
  (forall j, p (Call (column_plot simulated j)) = true) ->
  forallb p (nominal n) = true.
Proof.
  unfold nominal. intros H0 Hb Hc.
  rewrite forallb_app in *. simpl in *.
  apply andb_prop in H0 as [H1 H2]. apply andb_prop in H2 as [H2 H3].
  rewrite H1, H2. simpl. rewrite forallb_app.
  rewrite forallb_loop_events by assumption. exact H3.
Qed.

Lemma every_event (p : event -> bool) :
  forallb p (nominal 0) = true ->
  (forall j, p (Bind "i" (VItem (columns simulated) j)) = true) ->
  (forall j, p (Call (column_plot simulated j)) = true) ->
  forall O, Forall (fun ev => p ev = true) (trace (final (run O notebook))).
Proof.
  intros H0 Hb Hc O.
  destruct (run_prefix O) as [k Hk].
  pose proof (forallb_nominal p (count O (columns simulated)) H0 Hb Hc) as H.
  rewrite Hk, forallb_app in H. apply andb_prop in H as [H _].
  rewrite Forall_forall. intros ev Hin.
  rewrite forallb_forall in H. apply H. now apply list_elem_of_In.
Qed.

Lemma bound_to_sound x v ev : bound_to_b x v ev = true -> bound_to x v ev.
Proof.
  destruct ev as [y w|c]; simpl; auto.
  destruct (String.eqb x y); auto. apply value_eqb_eq.
Qed.

Lemma made_on_sound names r ev : made_on_b names r ev = true -> made_on names r ev.
Proof.
  destruct ev as [y w|c]; simpl; auto.
  destruct (is_call_to names c); auto.
  destruct (receiver c) as [r'|]; [|discriminate].
  intros H. apply value_eqb_eq in H. now subst.
Qed.

Lemma is_the_call_sound names c0 ev :
  is_the_call_b names c0 ev = true -> is_the_call names c0 ev.
Proof.
  destruct ev as [y w|c]; simpl; auto.
  destruct (is_call_to names c); auto. apply value_eqb_eq.
Qed.



(** *** Counting events *)

Lemma filter_loop_events (p : event -> bool) sim n : forall k,
  (forall j, p (Bind "i" (VItem (columns sim) j)) = false) ->
  (forall j, p (Call (column_plot sim j)) = false) ->
  List.filter p (loop_events sim n k) = [].
Proof.
  induction n as [|n IH]; intros k Hb Hc; simpl.
  - reflexivity.
  - now rewrite Hb, Hc, IH.
Qed.

Lemma filter_nominal (p : event -> bool) n :
  (forall j, p (Bind "i" (VItem (columns simulated) j)) = false) ->
  (forall j, p (Call (column_plot simulated j)) = false) ->
  List.filter p (nominal n) = List.filter p (nominal 0).
Proof.
  intros Hb Hc. unfold nominal.
  rewrite !List.filter_app. simpl.
  rewrite !List.filter_app, filter_loop_events by assumption.
  reflexivity.
Qed.

Lemma at_most (p : event -> bool) (m : nat) :
  length (List.filter p (nominal 0)) = m ->
  (forall j, p (Bind "i" (VItem (columns simulated) j)) = false) ->
  (forall j, p (Call (column_plot simulated j)) = false) ->
  forall O, length (List.filter p (trace (final (run O notebook)))) <= m.
Proof.
  intros H0 Hb Hc O.
  destruct (run_prefix O) as [k Hk].
  pose proof (filter_nominal p (count O (columns simulated)) Hb Hc) as H.
  rewrite Hk, List.filter_app in H.
  apply (f_equal (@length event)) in H. rewrite length_app, H0 in H. lia.
Qed.

(** *** Order of events *)

Lemma occurs_mono ev seen seen' :
  (forall x, In x seen -> In x seen') ->
  occurs ev seen = true -> occurs ev seen' = true.
Proof.
  unfold occurs. intros Hin H. apply existsb_exists in H as (x & Hx & E).
  apply existsb_exists. exists x. auto.
Qed.

Lemma dataset_loaded_mono data seen seen' :
  (forall x, In x seen -> In x seen') ->
  dataset_loaded data seen = true -> dataset_loaded data seen' = true.
Proof.
  unfold dataset_loaded. intros Hin H.
  apply existsb_exists in H as (x & Hx & E).
  apply existsb_exists. exists x. auto.
Qed.

Lemma step_ok_mono seen seen' ev :
  (forall x, In x seen -> In x seen') ->
  step_ok seen ev = true -> step_ok seen' ev = true.
Proof.
  intros Hin. destruct ev as [x v|c]; simpl; auto.
  intros H. apply andb_prop in H as [H H4]. apply andb_prop in H as [H H3].
  apply andb_prop in H as [H1 H2]. rewrite H3, H4, !andb_true_r.
  apply andb_true_intro. split.
  - rewrite forallb_forall in *. intros d Hd.
    eapply occurs_mono; eauto.
  - destruct (is_model c); auto. destruct (dataset_of c); auto.
    eapply dataset_loaded_mono; eauto.
Qed.

Lemma ordered_from_mono tr : forall seen seen',
  (forall x, In x seen -> In x seen') ->
  ordered_from seen tr = true -> ordered_from seen' tr = true.
Proof.
  induction tr as [|ev tr IH]; intros seen seen' Hin; simpl; auto.
  intros H. apply andb_prop in H as [H1 H2]. apply andb_true_intro. split.
  - eapply step_ok_mono; eauto.
  - apply (IH (seen ++ [ev])); auto.
    intros x Hx. apply in_app_iff in Hx as [Hx|Hx]; apply in_app_iff; auto.
Qed.

Lemma ordered_from_app a : forall seen b,
  ordered_from seen (a ++ b) =
  ordered_from seen a && ordered_from (seen ++ a) b.
Proof.
  induction a as [|ev a IH]; intros seen b; simpl.
  - now rewrite app_nil_r.
  - rewrite IH, <- app_assoc, andb_assoc. reflexivity.
Qed.

Lemma ordered_from_sound tr : forall seen,
  ordered_from seen tr = true ->
  forall tr1 ev tr2, tr = tr1 ++ ev :: tr2 -> step_ok (seen ++ tr1) ev = true.
Proof.
  induction tr as [|e tr IH]; intros seen H tr1 ev tr2 E.
  - destruct tr1; discriminate E.
  - simpl in H. apply andb_prop in H as [H1 H2].
    destruct tr1 as [|e1 tr1]; simpl in E; injection E as -> E.
    + now rewrite app_nil_r.
    + specialize (IH _ H2 _ _ _ E). now rewrite <- app_assoc in IH.
Qed.

Lemma ordered_from_loop sim n : forall k seen,
  (forall j, step_ok seen (Call (column_plot sim j)) = true) ->
  ordered_from seen (loop_events sim n k) = true.
Proof.
  induction n as [|n IH]; intros k seen H; [reflexivity|].
  change (step_ok seen (Bind "i" (VItem (columns sim) k))
          && (step_ok (seen ++ [Bind "i" (VItem (columns sim) k)])
                (Call (column_plot sim k))
              && ordered_from
                   ((seen ++ [Bind "i" (VItem (columns sim) k)])
                      ++ [Call (column_plot sim k)])
                   (loop_events sim n (S k))) = true).
  apply andb_true_intro. split; [reflexivity|].
  apply andb_true_intro. split.
  - apply (step_ok_mono seen); auto.
    intros x Hx. apply in_app_iff. now left.
  - apply IH. intros j. apply (step_ok_mono seen); auto.
    intros x Hx. apply in_app_iff. left. apply in_app_iff. now left.
Qed.

Lemma ordered_nominal n : ordered (nominal n).
Proof.
  assert (H : ordered_from [] (nominal n) = true).
  { unfold nominal. rewrite ordered_from_app. simpl.
    apply andb_true_intro. split; [vm_compute; reflexivity|].
    apply andb_true_intro. split; [vm_compute; reflexivity|].
    rewrite ordered_from_app. apply andb_true_intro. split.
    - apply ordered_from_loop. intros j. vm_compute. reflexivity.
    - apply (ordered_from_mono _ (trace loop_entry ++ [Call (columns simulated)])).
      + intros x Hx. apply in_app_iff. now left.
      + vm_compute. reflexivity. }
  intros tr1 ev tr2 E. exact (ordered_from_sound _ _ H _ _ _ E).
Qed.

Lemma every_run_ordered O : ordered (trace (final (run O notebook))).
Proof.
  destruct (run_prefix O) as [k Hk]. intros tr1 ev tr2 E.
  apply (ordered_nominal (count O (columns simulated)) tr1 ev (tr2 ++ k)).
  rewrite Hk, E, <- app_assoc. reflexivity.
Qed.

Lemma every_event_prop (P : event -> Prop) (p : event -> bool) :
  (forall ev, p ev = true -> P ev) ->
  forallb p (nominal 0) = true ->
  (forall j, p (Bind "i" (VItem (columns simulated) j)) = true) ->
  (forall j, p (Call (column_plot simulated j)) = true) ->
  forall O, Forall P (trace (final (run O notebook))).
Proof.
  intros Hs H0 Hb Hc O.
  pose proof (every_event p H0 Hb Hc O) as H.
  rewrite Forall_forall in *. intros ev Hin. apply Hs, H, Hin.
Qed.

Lemma always_bound x v :
  forallb (bound_to_b x v) (nominal 0) = true ->
  String.eqb x "i" = false ->
  forall O, Forall (bound_to x v) (trace (final (run O notebook))).
Proof.
  intros H0 Hx. apply (every_event_prop _ (bound_to_b x v)); auto.
  - apply bound_to_sound.
  - intros j. simpl. now rewrite Hx.
Qed.

(** The run in which no call raises, with no pass of the plotting loop. *)
Lemma quiet_run_trace n :
  exists st, run (quiet_oracle n) notebook = Normal tt st
             /\ trace st = nominal n.
Proof. exact (nominal_run (quiet_oracle n)). Qed.

(* ===================================================================== *)
(** * The claims *)
(* ===================================================================== *)

(** C1.  The two literal arrays have the documented lengths: [oildata] has
    49 float entries, as many as the yearly index from 1965 to 2013, and
    [austourists_data] has 68 float entries, as many as the quarterly index
    from 1999-03-01 to 2015-12-01; so both [pd.Series] constructions pair
    data and index and succeed.  In every run the names [oil] and
    [austourists] are bound to these constructions and to nothing else. *)
Theorem C1_data_lengths :
  length oildata = 49 /\ length austourists_data = 68 /\
  (exists dates f, index_of oil_index = Some (dates, f)
                   /\ length dates = 49) /\
  (exists dates f, index_of austourists_index = Some (dates, f)
                   /\ length dates = 68) /\
  (exists s, series_of Objects.oil = Some s
             /\ map snd s = oildata /\ length s = 49) /\
  (exists s, series_of Objects.austourists = Some s
             /\ map snd s = austourists_data /\ length s = 68) /\
  (forall O,
     Forall (bound_to "oildata" (VList (map VFloat oildata)))
       (trace (final (run O notebook))) /\
     Forall (bound_to "oil" Objects.oil) (trace (final (run O notebook))) /\
     Forall (bound_to "austourists_data" (VList (map VFloat austourists_data)))
       (trace (final (run O notebook))) /\
     Forall (bound_to "index" austourists_index)
       (trace (final (run O notebook))) /\
     Forall (bound_to "austourists" Objects.austourists)
       (trace (final (run O notebook)))) /\
  In (Bind "oil" Objects.oil) (trace (final (run (quiet_oracle 0) notebook))) /\
  In (Bind "austourists" Objects.austourists)
     (trace (final (run (quiet_oracle 0) notebook))).
Proof.
  split; [reflexivity|]. split; [reflexivity|].
  split; [eexists; eexists; split; [vm_compute; reflexivity|reflexivity]|].
  split; [eexists; eexists; split; [vm_compute; reflexivity|reflexivity]|].
  split; [eexists; split; [vm_compute; reflexivity|split; reflexivity]|].
  split; [eexists; split; [vm_compute; reflexivity|split; reflexivity]|].
  split.
  - intros O. repeat split; apply always_bound; vm_compute; reflexivity.
  - destruct (quiet_run_trace 0) as (st & Hrun & Htr). rewrite Hrun. simpl.
    rewrite Htr. split; apply occurs_In; vm_compute; reflexivity.
Qed.


(** C3.  No cell holds a [try], a retry loop, a branch or a [raise], so an
    exception raised by an external call is caught nowhere: when a call of
    a run raises, the run ends with that exception and the raising call is
    the last event of the run. *)
Theorem C3_no_error_handling :
  uses is_try notebook = false /\ uses is_retry_loop notebook = false /\
  uses is_if notebook = false /\ uses is_raise notebook = false /\
  forall O tr1 c tr2 msg,
    trace (final (run O notebook)) = tr1 ++ Call c :: tr2 ->
    raises O tr1 c = Some msg ->
    tr2 = [] /\ exists st, run O notebook = Raised (ExtError c msg) st.
Proof.
  do 4 (split; [vm_compute; reflexivity|]).
  intros O tr1 c tr2 msg E Hr.
  destruct (run_faithful O) as [_ H].
  destruct (H init (quiet_nil O)) as (_ & _ & He). fold (run O notebook) in He.
  assert (Hq : ~ quiet O (trace (final (run O notebook)))).
  { intros Hq. rewrite (Hq _ _ _ E) in Hr. discriminate Hr. }
  destruct (run O notebook) as [[] st|[x|c' msg'] st|st] eqn:Erun; simpl in *;
    try (destruct He as [_ He]; contradiction).
  destruct He as (tr & Etr & Hqt & Hr').
  rewrite Etr in E.
  destruct tr2 as [|ev tr2 _] using rev_ind.
  - apply app_inj_tail in E as [-> E]. injection E as ->.
    rewrite Hr in Hr'. injection Hr' as ->. split; [reflexivity|].
    exists st. reflexivity.
  - exfalso. change (tr ++ [Call c'] = tr1 ++ (Call c :: tr2) ++ [ev]) in E.
    rewrite app_assoc in E. apply app_inj_tail in E as [E _].
    rewrite (Hqt _ _ _ E) in Hr. discriminate Hr.
Qed.

(** C3 at the oracle under which every [fit] fails: the run stops at the
    first [fit] call with its exception. *)
Lemma C3_no_error_handling_witness :
  raises failing_fit (firstn 13 (nominal 0)) oil_fit = Some "ConvergenceError"
  /\ exists st,
       run failing_fit notebook = Raised (ExtError oil_fit "ConvergenceError") st.
Proof.
  split; [vm_compute; reflexivity|].
  destruct C3_no_error_handling as (_ & _ & _ & _ & H).
  apply (H failing_fit (firstn 13 (nominal 0)) oil_fit [] "ConvergenceError").
  - vm_compute. reflexivity.
  - vm_compute. reflexivity.
Defined.

(** *** Events after a given one *)

Lemma after_absent x tr : occurs x tr = false -> after x tr = [].
Proof.
  induction tr as [|ev tr IH]; simpl; auto.
  destruct (event_eqb x ev); simpl; [discriminate|exact IH].
Qed.

Lemma after_app x a b : occurs x a = true -> after x (a ++ b) = after x a ++ b.
Proof.
  induction a as [|ev a IH]; simpl; [discriminate|].
  destruct (event_eqb x ev); simpl; auto.
Qed.

Lemma winds_down_after_simulate O :
  forallb winds_down
    (after (Call simulated) (trace (final (run O notebook)))) = true.
Proof.
  destruct (run_prefix O) as [k Hk].
  set (tr := trace (final (run O notebook))) in *.
  destruct (occurs (Call simulated) tr) eqn:E.
  - assert (H : forallb winds_down
                  (after (Call simulated)
                     (nominal (count O (columns simulated)))) = true).
    { unfold nominal. rewrite after_app by (vm_compute; reflexivity).
      rewrite forallb_app. apply andb_true_intro. split.
      - vm_compute. reflexivity.
      - simpl. rewrite forallb_app, forallb_loop_events; reflexivity. }
    rewrite Hk, after_app, forallb_app in H by exact E.
    now apply andb_prop in H as [H _].
  - now rewrite after_absent.
Qed.

(** C4, as the overview words it: both datasets are loaded before any model
    is constructed, and plotting comes after the modelling calls.  In the
    run in which no call raises, the second dataset is loaded after the
    first model has been constructed, and the fitted values of the first
    fit are plotted before the first [smooth] call. *)
Lemma C4_stated_sequence_fails :
  ~ datasets_first (trace (final (run (quiet_oracle 0) notebook))) /\
  ~ plotting_last (trace (final (run (quiet_oracle 0) notebook))).
Proof.
  destruct (quiet_run_trace 0) as (st & Hrun & Htr). rewrite Hrun. simpl.
  rewrite Htr.
  assert (E38 : nominal 0 !! 38%nat
                = Some (Bind "austourists_data"
                          (VList (map VFloat austourists_data))))
    by (vm_compute; reflexivity).
  assert (E11 : nominal 0 !! 11%nat = Some (Call oil_model))
    by (vm_compute; reflexivity).
  assert (E16 : nominal 0 !! 16%nat
                = Some (Call (VCall (VAttr (VAttr oil_fit "fittedvalues") "plot")
                                [] [("label", VStr "statsmodels fit")])))
    by (vm_compute; reflexivity).
  assert (E19 : nominal 0 !! 19%nat = Some (Call oil_smooth))
    by (vm_compute; reflexivity).
  split; intros H.
  - specialize (H _ _ _ _ E38 E11 eq_refl eq_refl). lia.
  - specialize (H _ _ _ _ E19 E16 eq_refl eq_refl). lia.
Qed.

(** C4, amended.  In every run each step has what it needs before it: the
    calls whose results it uses were made earlier, a model is constructed
    from a dataset loaded earlier, [fit] is called on a constructed model,
    [get_prediction] and [simulate] are called on a fit; and once
    [simulate] has been called, only bindings, the loop's [range] and
    plotting calls follow. *)
Theorem C4_sequence : forall O,
  ordered (trace (final (run O notebook))) /\
  forallb winds_down
    (after (Call simulated) (trace (final (run O notebook)))) = true.
Proof.
  intros O. split.
  - apply every_run_ordered.
  - apply winds_down_after_simulate.
Qed.

(** C5, as the overview words it: four or five calls into the modelling
    API. *)
Lemma C5_call_count_fails :
  ~ (api_call_count notebook = 4 \/ api_call_count notebook = 5).
Proof. vm_compute. intros [H|H]; discriminate H. Qed.

(** C5, amended.  The notebook makes fifteen calls into the modelling API:
    three each of [ETSModel], [fit], [smooth] and [summary], one each of
    [get_prediction], [summary_frame] and [simulate].  It defines no
    function and no class, and every statement is an import or magic, a
    data definition, a modelling call, or a plotting or display
    statement. *)
Theorem C5_glue_code :
  api_call_count notebook = 15 /\
  map (fun n => count_calls [n] notebook) modelling_api
    = [3; 3; 3; 3; 1; 1; 1] /\
  uses is_def notebook = false /\
  existsb (fun s => is_other (classify s)) (code notebook) = false /\
  (forall O, length (List.filter is_modelling
                       (trace (final (run O notebook)))) <= 15) /\
  (forall n, length (List.filter is_modelling
                       (trace (final (run (quiet_oracle n) notebook)))) = 15).
Proof.
  do 4 (split; [vm_compute; reflexivity|]). split.
  - apply at_most; [vm_compute; reflexivity|reflexivity|reflexivity].
  - intros n. destruct (quiet_run_trace n) as (st & Hrun & Htr).
    rewrite Hrun. simpl. rewrite Htr, filter_nominal by reflexivity.
    vm_compute. reflexivity.
Qed.

(** C6, as the data model words it: no keyword argument outside the listed
    configuration parameters reaches the modelling calls. *)
Lemma C6_configuration_fails :
  ~ (forall k, In k (kwargs_passed_to modelling_api notebook) ->
               In k documented_config).
Proof.
  intros H. specialize (H "maxiter").
  assert (Hin : In "maxiter" (kwargs_passed_to modelling_api notebook))
    by (vm_compute; auto).
  apply H in Hin. vm_compute in Hin.
  repeat (destruct Hin as [Hin|Hin]; [discriminate Hin|]). exact Hin.
Qed.

(** C6, amended.  The constructor receives exactly the error, trend and
    seasonal kinds, the damping flag, the seasonal period count and the
    initialization method; [simulate] receives the anchor, the repetition
    count and the number of simulations; besides these, [fit] receives
    [maxiter], [get_prediction] receives [start] and [end], and
    [summary_frame] receives [alpha]; [smooth] and [summary] receive no
    keyword argument. *)
Theorem C6_configuration :
  same_names (kwargs_passed_to constructor_api notebook)
    ["error"; "trend"; "seasonal"; "damped_trend"; "seasonal_periods";
     "initialization_method"] = true /\
  same_names (kwargs_passed_to ["simulate"] notebook)
    ["anchor"; "nsimulations"; "repetitions"] = true /\
  same_names (kwargs_passed_to ["fit"] notebook) ["maxiter"] = true /\
  same_names (kwargs_passed_to ["get_prediction"] notebook)
    ["start"; "end"] = true /\
  same_names (kwargs_passed_to ["summary_frame"] notebook) ["alpha"] = true /\
  kwargs_passed_to ["smooth"; "summary"] notebook = [] /\
  same_names (kwargs_passed_to modelling_api notebook)
    (documented_config
       ++ ["maxiter"; "start"; "end"; "alpha"; "nsimulations"]) = true.
Proof. repeat split; vm_compute; reflexivity. Qed.

(** *** The state outside the process *)




(** The classification does single out what persists: saving a figure,
    writing a frame to a file, loading another module and running another
    magic or a shell escape all change the logged world. *)
Example savefig_persists :
  world_after log_persisting []
    [Call (VCall (VAttr plt "savefig") [VStr "ets.png"] [])] []
  = [VCall (VAttr plt "savefig") [VStr "ets.png"] []].
Proof. reflexivity. Qed.

Example to_csv_persists :
  world_after log_persisting []
    [Call (VCall (VAttr frame "to_csv") [VStr "forecast.csv"] [])] []
  = [VCall (VAttr frame "to_csv") [VStr "forecast.csv"] []].
Proof. vm_compute. reflexivity. Qed.

Example other_steps_persist :
  world_after log_persisting ["save session.py 1-5"; "!curl example.org"]
    [Bind "os" (VModule "os")] []
  = [VModule "os"; VStr "!curl example.org"; VStr "save session.py 1-5"].
Proof. reflexivity. Qed.





(** The same library returns different results for one [simulate] call made
    at two different points. *)
Example simulate_results_differ :
  sample_result (firstn 19 (nominal 0)) simulated
  <> sample_result (firstn 32 (nominal 0)) simulated.
Proof. vm_compute. intros H. discriminate H. Qed.

(** C9.  [model], [fit] and [params_R] are bound a second time in the
    Holt-Winters section, so in every run [get_prediction] and [simulate]
    are called on the fit of the seasonal model built from the
    [austourists] series, which is neither of the two oil fits. *)
Theorem C9_predictions_on_seasonal_fit :
  bindings_of "model" notebook = 2 /\ bindings_of "fit" notebook = 2 /\
  bindings_of "params_R" notebook = 2 /\
  List.filter (fun x => mem x ["model"; "fit"; "params_R"])
    (flat_map binds cell_austourists_fit) = ["model"; "fit"; "params_R"] /\
  model_of seasonal_fit = Some seasonal_model /\
  endog seasonal_model = Some Objects.austourists /\
  kwarg "seasonal" (match seasonal_model with
                    | VCall _ _ kw => kw
                    | _ => []
                    end) = Some (VStr "add") /\
  seasonal_fit <> oil_fit /\ seasonal_fit <> heuristic_fit /\
  (forall O,
     Forall (made_on ["get_prediction"; "simulate"] seasonal_fit)
       (trace (final (run O notebook))) /\
     Forall (is_the_call ["get_prediction"] prediction)
       (trace (final (run O notebook))) /\
     Forall (is_the_call ["simulate"] simulated)
       (trace (final (run O notebook)))) /\
  (forall n,
     In (Call prediction) (trace (final (run (quiet_oracle n) notebook))) /\
     In (Call simulated) (trace (final (run (quiet_oracle n) notebook)))).
Proof.
  do 7 (split; [vm_compute; reflexivity|]).
  split; [intros H; discriminate H|]. split; [intros H; discriminate H|].
  split.
  - intros O. split; [|split].
    + apply (every_event_prop _
               (made_on_b ["get_prediction"; "simulate"] seasonal_fit));
        [apply made_on_sound|vm_compute; reflexivity|reflexivity|].
      intros j. vm_compute. reflexivity.
    + apply (every_event_prop _ (is_the_call_b ["get_prediction"] prediction));
        [apply is_the_call_sound|vm_compute; reflexivity|reflexivity|].
      intros j. vm_compute. reflexivity.
    + apply (every_event_prop _ (is_the_call_b ["simulate"] simulated));
        [apply is_the_call_sound|vm_compute; reflexivity|reflexivity|].
      intros j. vm_compute. reflexivity.
  - intros n. destruct (quiet_run_trace n) as (st & Hrun & Htr).
    rewrite Hrun. simpl. rewrite Htr. unfold nominal.
    split; apply in_app_iff; left; apply occurs_In; vm_compute; reflexivity.
Qed.

(** C10.  The austourists index ends at 2015-12-01 and advances by three
    months; a simulation anchored at the end starts at the first date after
    the data, so the 17 simulated dates run from 2016-03-01 to 2020-03-01,
    one in each of the 17 quarters from the first quarter of 2016 to the
    first quarter of 2020.  The notebook makes this [simulate] call: a run
    in which no call raises makes it exactly once, no run makes it twice,
    and every [simulate] call of every run has this index. *)
Theorem C10_simulation_horizon :
  (exists dates f, index_of austourists_index = Some (dates, f)
                   /\ last dates = Some (mkDate 2015 12 1)
                   /\ step f = 3%Z) /\
  (exists ix, simulated_index_of simulated = Some ix
              /\ length ix = 17
              /\ head ix = Some (mkDate 2016 3 1)
              /\ last ix = Some (mkDate 2020 3 1)
              /\ map quarter ix = quarters_from (2016, 1)%Z 17
              /\ last (quarters_from (2016, 1)%Z 17) = Some (2020, 1)%Z) /\
  (forall O,
    Forall (is_the_call ["simulate"] simulated)
      (trace (final (run O notebook))) /\
    Forall (fun ev =>
              is_simulate ev = true ->
              exists c ix, ev = Call c
                           /\ simulated_index_of c = Some ix
                           /\ map quarter ix = quarters_from (2016, 1)%Z 17)
      (trace (final (run O notebook))) /\
    length (List.filter is_simulate (trace (final (run O notebook)))) <= 1) /\
  (forall n,
    List.filter is_simulate (trace (final (run (quiet_oracle n) notebook)))
    = [Call simulated]) /\
  In (SAssign (EName "simulated")
        (method (EName "fit") "simulate" []
           [("anchor", EStr "end"); ("nsimulations", EInt 17);
            ("repetitions", EInt 100)]))
     (code notebook).
Proof.
  split; [eexists; eexists; split; [vm_compute; reflexivity|split; reflexivity]|].
  split.
  { eexists. split; [vm_compute; reflexivity|]. repeat split. }
  split.
  - intros O.
    assert (Hc : Forall (is_the_call ["simulate"] simulated)
                   (trace (final (run O notebook)))).
    { apply (every_event_prop _ (is_the_call_b ["simulate"] simulated));
        [apply is_the_call_sound|vm_compute; reflexivity|reflexivity|].
      intros j. vm_compute. reflexivity. }
    split; [exact Hc|]. split.
    + rewrite Forall_forall in *. intros ev Hin Hs. specialize (Hc ev Hin).
      destruct ev as [x v|c]; [discriminate Hs|]. simpl in Hc, Hs.
      rewrite Hs in Hc. subst c. eexists. eexists.
      split; [reflexivity|]. split; vm_compute; reflexivity.
    + apply at_most; [vm_compute; reflexivity|reflexivity|reflexivity].
  - split.
    + intros n. destruct (quiet_run_trace n) as (st & Hrun & Htr).
      rewrite Hrun. simpl. rewrite Htr, filter_nominal by reflexivity.
      vm_compute. reflexivity.
    + vm_compute. auto 60.
Qed.

(* ===================================================================== *)
(** * Further properties of the notebook *)
(* ===================================================================== *)

(** *** The exact state after the run in which no call raises *)

Lemma loop_pass O sim n k st :
  env st !! "simulated" = Some sim ->
  loop (calm O) "i" (columns sim)
    [SExpr (method
       (ESubscript (EAttr (EName "simulated") "iloc")
                   (ETuple [ESliceAll; EName "i"]))
       "plot" []
       [("label", EStr "_"); ("color", EStr "gray"); ("alpha", EFloat 0.1)])]
    (S n) k st =
  loop (calm O) "i" (columns sim)
    [SExpr (method
       (ESubscript (EAttr (EName "simulated") "iloc")
                   (ETuple [ESliceAll; EName "i"]))
       "plot" []
       [("label", EStr "_"); ("color", EStr "gray"); ("alpha", EFloat 0.1)])]
    n (S k)
    (mkState (<["i" := VItem (columns sim) k]> (env st))
       ((trace st ++ [Bind "i" (VItem (columns sim) k)])
          ++ [Call (column_plot sim k)])).
Proof.
  intros Hsim.
  set (st1 := mkState (<["i" := VItem (columns sim) k]> (env st))
                (trace st ++ [Bind "i" (VItem (columns sim) k)])).
  assert (H1 : env st1 !! "simulated" = Some sim).
  { simpl. rewrite lookup_insert_ne by discriminate. exact Hsim. }
  assert (H2 : env st1 !! "i" = Some (VItem (columns sim) k)).
  { simpl. apply lookup_insert_eq. }
  cbn [loop]. unfold bind at 1. cbn [bind_name]. fold st1.
  cbn -[lookup_name loop st1].
  unfold bind, ret. rewrite (lookup_name_bound _ _ _ H1). cbv beta iota.
  rewrite (lookup_name_bound _ _ _ H2). cbv beta iota.
  unfold call. cbn [calm raises]. cbv beta iota zeta. reflexivity.
Qed.

Lemma loop_exact O sim n : forall k st,
  env st !! "simulated" = Some sim ->
  loop (calm O) "i" (columns sim)
    [SExpr (method
       (ESubscript (EAttr (EName "simulated") "iloc")
                   (ETuple [ESliceAll; EName "i"]))
       "plot" []
       [("label", EStr "_"); ("color", EStr "gray"); ("alpha", EFloat 0.1)])]
    n k st =
  Normal tt
    (mkState
       (match n with
        | 0 => env st
        | S m => <["i" := VItem (columns sim) (k + m)]> (env st)
        end)
       (trace st ++ loop_events sim n k)).
Proof.
  induction n as [|n IH]; intros k st Hsim.
  - destruct st as [e t]. simpl. rewrite app_nil_r. reflexivity.
  - rewrite loop_pass by exact Hsim. rewrite IH.
    + f_equal. simpl. f_equal.
      * destruct n as [|m].
        -- now rewrite Nat.add_0_r.
        -- rewrite insert_insert_eq. now rewrite Nat.add_succ_r.
      * rewrite <- !app_assoc. reflexivity.
    + simpl. rewrite lookup_insert_ne by discriminate. exact Hsim.
Qed.

Lemma plot_loop_exact O sim st :
  env st !! "simulated" = Some sim -> env st !! "range" = None ->
  exec (calm O) plot_loop st =
  Normal tt
    (mkState
       (match count O (columns sim) with
        | 0 => env st
        | S m => <["i" := VItem (columns sim) m]> (env st)
        end)
       (trace st ++ Call (columns sim)
          :: loop_events sim (count O (columns sim)) 0)).
Proof.
  intros Hsim Hrange.
  change plot_loop with
    (SFor "i"
       (ECall (EName "range")
          [ESubscript (EAttr (EName "simulated") "shape") (EInt 1)] [])
       [SExpr (method
          (ESubscript (EAttr (EName "simulated") "iloc")
                      (ETuple [ESliceAll; EName "i"]))
          "plot" []
          [("label", EStr "_"); ("color", EStr "gray");
           ("alpha", EFloat 0.1)])]).
  rewrite exec_SFor. cbn -[lookup_name loop].
  unfold bind, ret.
  rewrite (lookup_name_builtin _ _ Hrange eq_refl). cbv beta iota.
  rewrite (lookup_name_bound _ _ _ Hsim). cbv beta iota.
  unfold call. cbn [calm raises count]. cbv beta iota zeta.
  etransitivity;
    [exact (loop_exact O sim (count O (columns sim)) 0
              (mkState (env st) (trace st ++ [Call (columns sim)])) Hsim)|].
  simpl. rewrite <- app_assoc. reflexivity.
Qed.

Lemma nominal_state O :
  run (calm O) notebook = Normal tt (final_state (count O (columns simulated))).
Proof.
  unfold run. rewrite code_split, exec_block_app. unfold bind at 1.
  rewrite before_loop_run. cbn [exec_block]. unfold bind at 1.
  rewrite (plot_loop_exact O simulated loop_entry)
    by (vm_compute; reflexivity).
  unfold final_state, final_env, nominal.
  destruct (count O (columns simulated)) as [|m].
  - rewrite (after_loop_run O frame prediction plt)
      by (vm_compute; reflexivity).
    simpl. rewrite <- app_assoc. reflexivity.
  - rewrite (after_loop_run O frame prediction plt)
      by (simpl; rewrite lookup_insert_ne by discriminate;
          vm_compute; reflexivity).
    cbn [env trace]. rewrite <- app_assoc. reflexivity.
Qed.

Lemma run_outcome O :
  run O notebook = Normal tt (final_state (count O (columns simulated)))
  \/ exists c msg st, run O notebook = Raised (ExtError c msg) st.
Proof.
  destruct (run_faithful O) as [_ H].
  destruct (H init (quiet_nil O)) as (_ & _ & He).
  fold (run O notebook) in He. fold (run (calm O) notebook) in He.
  rewrite nominal_state in He.
  destruct (run O notebook) as [[] st|[x|c msg] st|st] eqn:E;
    try (destruct He as [He _]; discriminate He).
  - destruct He as [He _]. left. now rewrite He.
  - right. eauto.
Qed.

Lemma completed_run O st :
  run O notebook = Normal tt st ->
  st = final_state (count O (columns simulated)).
Proof.
  intros E. destruct (run_outcome O) as [H|(c & msg & st' & H)];
    rewrite E in H; [now injection H|discriminate H].
Qed.

(** *** Runs from two environments that agree on the names read *)

Lemma known_cons D x y :
  known (x :: D) y = String.eqb y x || known D y.
Proof.
  unfold known. change (mem y (x :: D)) with (String.eqb y x || mem y D).
  symmetry. apply orb_assoc.
Qed.

Lemma agree_bind_name E x v s1 s2 :
  agree E s1 s2 ->
  agree E (mkState (<[x := v]> (env s1)) (trace s1 ++ [Bind x v]))
          (mkState (<[x := v]> (env s2)) (trace s2 ++ [Bind x v])).
Proof.
  intros [Ht He]. split; simpl.
  - now rewrite Ht.
  - intros y Hy. destruct (String.eqb_spec y x) as [->|Hne].
    + now rewrite !lookup_insert_eq.
    + rewrite !lookup_insert_ne by congruence. auto.
Qed.

Lemma agree_emit E ev s1 s2 :
  agree E s1 s2 ->
  agree E (mkState (env s1) (trace s1 ++ [ev]))
          (mkState (env s2) (trace s2 ++ [ev])).
Proof. intros [Ht He]. split; simpl; [now rewrite Ht|exact He]. Qed.

Section Twins.
Variable O : oracle.

Lemma twin_ret {A} D (a : A) : Twin D D (ret a).
Proof. intros s1 s2 H. split; simpl; auto. Qed.

Lemma twin_stuck {A} D D1 : Twin D D1 (@stuck A).
Proof. intros s1 s2 H. split; simpl; auto. Qed.

Lemma twin_bind {A B} D D1 D2 (m : M A) (f : A -> M B) :
  Twin D D1 m -> (forall a, Twin D1 D2 (f a)) -> Twin D D2 (bind m f).
Proof.
  intros Hm Hf s1 s2 H. destruct (Hm s1 s2 H) as [Hp Hk]. unfold bind.
  destruct (m s1) as [a t1|x t1|t1], (m s2) as [b t2|y t2|t2];
    simpl in *; try contradiction; try (split; auto; fail).
  destruct Hk as [<- Hag]. destruct (Hf a t1 t2 Hag) as [Hp' Hk'].
  split; auto.
Qed.

Lemma twin_forget {A} D D1 (m : M A) : Twin D D1 m -> Twin D D m.
Proof.
  intros Hm s1 s2 H. destruct (Hm s1 s2 H) as [Hp Hk]. split; [exact Hp|].
  specialize (Hp D H).
  destruct (m s1) as [a t1|x t1|t1], (m s2) as [b t2|y t2|t2];
    simpl in *; auto. destruct Hk as [-> _]. auto.
Qed.

Lemma twin_call D c : Twin D D (call O c).
Proof.
  intros s1 s2 H. unfold call.
  replace (raises O (trace s1) c) with (raises O (trace s2) c)
    by (destruct H as [-> _]; reflexivity).
  destruct (raises O (trace s2) c); split; simpl;
    try (intros E HE; now apply agree_emit); auto.
  split; [reflexivity|]. now apply agree_emit.
Qed.

Lemma twin_lookup_name D x : known D x = true -> Twin D D (lookup_name x).
Proof.
  intros Hx s1 s2 H. unfold lookup_name. destruct H as [Ht He].
  rewrite (He x Hx).
  destruct (env s2 !! x); [|destruct (mem x builtins)]; split; simpl; auto;
    split; auto; split; auto.
Qed.

Lemma twin_bind_name D x v : Twin D (x :: D) (bind_name x v).
Proof.
  intros s1 s2 H. unfold bind_name. split; simpl.
  - intros E HE. now apply agree_bind_name.
  - split; [reflexivity|]. destruct H as [Ht He]. split; simpl.
    + now rewrite Ht.
    + intros y Hy. rewrite known_cons in Hy.
      destruct (String.eqb y x) eqn:Eyx.
      * apply String.eqb_eq in Eyx. subst y. now rewrite !lookup_insert_eq.
      * apply String.eqb_neq in Eyx.
        rewrite !lookup_insert_ne by congruence. apply He. exact Hy.
Qed.

Lemma forallb_flat_map {A B} (p : B -> bool) (f : A -> list B) l :
  forallb p (flat_map f l) = true ->
  Forall (fun x => forallb p (f x) = true) l.
Proof.
  induction l as [|x l IH]; simpl; intros H; constructor.
  - rewrite forallb_app in H. now apply andb_prop in H as [H _].
  - apply IH. rewrite forallb_app in H. now apply andb_prop in H as [_ H].
Qed.

Lemma twin_eval_list D es :
  Forall (fun e => scoped_e D e = true -> Twin D D (eval O e)) es ->
  forallb (known D) (flat_map reads_e es) = true ->
  Twin D D (eval_list O es).
Proof.
  intros HF Hs. apply forallb_flat_map in Hs.
  induction HF as [|e es He Hes IH]; simpl.
  - apply twin_ret.
  - inversion Hs as [|? ? Hs1 Hs2]; subst.
    apply (twin_bind D D D); [now apply He|]. intros v.
    apply (twin_bind D D D); [now apply IH|]. intros vs. apply twin_ret.
Qed.

Lemma twin_eval_kwargs D kws :
  Forall (fun kv => scoped_e D (snd kv) = true -> Twin D D (eval O (snd kv)))
    kws ->
  forallb (known D) (flat_map (fun kv => reads_e (snd kv)) kws) = true ->
  Twin D D (eval_kwargs O kws).
Proof.
  intros HF Hs. apply forallb_flat_map in Hs.
  induction HF as [|[k e] kws He Hes IH]; simpl.
  - apply twin_ret.
  - inversion Hs as [|? ? Hs1 Hs2]; subst.
    apply (twin_bind D D D); [now apply He|]. intros v.
    apply (twin_bind D D D); [now apply IH|]. intros vs. apply twin_ret.
Qed.

Lemma twin_eval D e : scoped_e D e = true -> Twin D D (eval O e).
Proof.
  induction e as [x|q|n|s|b|e IH|es IH|es IH| |e a IH|e i IH IHi
                 |f args kw IHf IHa IHk] using expr_induction;
    unfold scoped_e; intros Hs.
  - simpl in Hs. rewrite andb_true_r in Hs. now apply twin_lookup_name.
  - apply twin_ret.
  - apply twin_ret.
  - apply twin_ret.
  - apply twin_ret.
  - simpl. apply (twin_bind D D D); [now apply IH|]. intros v. apply twin_ret.
  - rewrite eval_EList. apply (twin_bind D D D);
      [now apply twin_eval_list|]. intros vs. apply twin_ret.
  - rewrite eval_ETuple. apply (twin_bind D D D);
      [now apply twin_eval_list|]. intros vs. apply twin_ret.
  - apply twin_ret.
  - simpl. apply (twin_bind D D D); [now apply IH|]. intros v. apply twin_ret.
  - simpl in Hs. rewrite forallb_app in Hs. apply andb_prop in Hs as [H1 H2].
    simpl. apply (twin_bind D D D); [now apply IH|]. intros v.
    apply (twin_bind D D D); [now apply IHi|]. intros iv. apply twin_ret.
  - simpl in Hs. rewrite !forallb_app in Hs.
    apply andb_prop in Hs as [H1 H2]. apply andb_prop in H2 as [H2 H3].
    rewrite eval_ECall. apply (twin_bind D D D); [now apply IHf|]. intros fv.
    apply (twin_bind D D D); [now apply twin_eval_list|]. intros avs.
    apply (twin_bind D D D); [now apply twin_eval_kwargs|]. intros kvs.
    apply twin_call.
Qed.

Lemma scoped_SFor D x it body :
  scoped_s D (SFor x it body) =
  if scoped_e D it then
    match scoped_block (x :: D) body with
    | Some _ => Some D
    | None => None
    end
  else None.
Proof. reflexivity. Qed.

Lemma twin_exec_block ss :
  Forall (fun s => forall D D1, scoped_s D s = Some D1 ->
                                Twin D D1 (exec O s)) ss ->
  forall D D1, scoped_block D ss = Some D1 -> Twin D D1 (exec_block O ss).
Proof.
  induction 1 as [|s ss Hs Hss IH]; intros D D1 Hc; simpl in *.
  - injection Hc as <-. apply twin_ret.
  - destruct (scoped_s D s) as [D'|] eqn:E; [|discriminate Hc].
    apply (twin_bind D D' D1); [now apply Hs|]. intros _. now apply IH.
Qed.

Lemma loop_assoc x itv body n k st :
  loop O x itv body (S n) k st =
  (do _ <- (do _ <- bind_name x (VItem itv k) ;;
            do _ <- exec_block O body ;; ret tt) ;;
   loop O x itv body n (S k)) st.
Proof.
  cbn [loop]. unfold bind, ret.
  destruct (bind_name x (VItem itv k) st) as [[] t|e t|t]; auto.
  destruct (exec_block O body t) as [[] t'|e t'|t']; auto.
Qed.

Lemma twin_loop D D1 x itv body n :
  Twin (x :: D) D1 (exec_block O body) ->
  forall k, Twin D D (loop O x itv body n k).
Proof.
  intros Hb. induction n as [|n IH]; intros k.
  - apply twin_ret.
  - intros s1 s2 H. rewrite !loop_assoc. revert s1 s2 H.
    apply (twin_bind D D D); [|intros _; apply IH].
    apply (twin_forget D D1).
    apply (twin_bind D (x :: D) D1); [apply twin_bind_name|].
    intros _. apply (twin_bind (x :: D) D1 D1); [exact Hb|].
    intros _. apply twin_ret.
Qed.

Lemma twin_exec s : forall D D1,
  scoped_s D s = Some D1 -> Twin D D1 (exec O s).
Proof.
  induction s as [m x|m n|l|t e|t e|t|e|x it body IH|c body IH
                 |c body orelse IH1 IH2|body handler IH1 IH2|e|c body IH
                 |n body IH|n body IH] using stmt_induction;
    intros D D1 Hc; try discriminate Hc.
  - injection Hc as <-. apply twin_bind_name.
  - injection Hc as <-. apply twin_bind_name.
  - injection Hc as <-. apply twin_ret.
  - destruct t; try discriminate Hc; simpl in Hc.
    + destruct (scoped_e D e) eqn:He; [|discriminate Hc]. injection Hc as <-.
      simpl. apply (twin_bind D D); [now apply twin_eval|]. intros v.
      apply twin_bind_name.
    + destruct (scoped_e D e) eqn:He; [|discriminate Hc].
      destruct (scoped_e D t) eqn:Ht; [|discriminate Hc]. injection Hc as <-.
      simpl. apply (twin_bind D D); [now apply twin_eval|]. intros v.
      apply (twin_bind D D); [now apply twin_eval|]. intros ov.
      apply (twin_bind D D); [apply twin_call|]. intros _. apply twin_ret.
    + destruct (scoped_e D e) eqn:He; [|discriminate Hc].
      destruct (scoped_e D t1) eqn:Ht1; [|discriminate Hc].
      destruct (scoped_e D t2) eqn:Ht2; [|discriminate Hc].
      injection Hc as <-.
      simpl. apply (twin_bind D D); [now apply twin_eval|]. intros v.
      apply (twin_bind D D); [now apply twin_eval|]. intros ov.
      apply (twin_bind D D); [now apply twin_eval|]. intros iv.
      apply (twin_bind D D); [apply twin_call|]. intros _. apply twin_ret.
  - simpl in Hc. destruct (scoped_e D e) eqn:He; [|discriminate Hc].
    injection Hc as <-. simpl.
    apply (twin_bind D D); [now apply twin_eval|]. intros v. apply twin_ret.
  - rewrite scoped_SFor in Hc.
    destruct (scoped_e D it) eqn:Hit; [|discriminate Hc].
    destruct (scoped_block (x :: D) body) as [Db|] eqn:Hb; [|discriminate Hc].
    injection Hc as <-. rewrite exec_SFor.
    apply (twin_bind D D); [now apply twin_eval|]. intros itv.
    apply (twin_loop D Db). now apply (twin_exec_block body IH).
Qed.

End Twins.

(** *** Steps that need something before them *)

Section Along.
Variable p : list event -> event -> bool.
Hypothesis p_grows : grows p.

Lemma checked_from_grows tr : forall seen seen',
  (forall x, In x seen -> In x seen') ->
  checked_from p seen tr = true -> checked_from p seen' tr = true.
Proof.
  induction tr as [|ev tr IH]; intros seen seen' Hin; simpl; auto.
  intros H. apply andb_prop in H as [H1 H2]. apply andb_true_intro. split.
  - eapply p_grows; eauto.
  - apply (IH (seen ++ [ev])); auto.
    intros x Hx. apply in_app_iff in Hx as [Hx|Hx]; apply in_app_iff; auto.
Qed.

Lemma checked_from_app a : forall seen b,
  checked_from p seen (a ++ b) =
  checked_from p seen a && checked_from p (seen ++ a) b.
Proof.
  induction a as [|ev a IH]; intros seen b; simpl.
  - now rewrite app_nil_r.
  - rewrite IH, <- app_assoc, andb_assoc. reflexivity.
Qed.

Lemma checked_from_sound tr : forall seen,
  checked_from p seen tr = true ->
  forall tr1 ev tr2, tr = tr1 ++ ev :: tr2 -> p (seen ++ tr1) ev = true.
Proof.
  induction tr as [|e tr IH]; intros seen H tr1 ev tr2 E.
  - destruct tr1; discriminate E.
  - simpl in H. apply andb_prop in H as [H1 H2].
    destruct tr1 as [|e1 tr1]; simpl in E; injection E as -> E.
    + now rewrite app_nil_r.
    + specialize (IH _ H2 _ _ _ E). now rewrite <- app_assoc in IH.
Qed.

Lemma checked_from_loop sim n : forall k seen,
  (forall j, p seen (Bind "i" (VItem (columns sim) j)) = true) ->
  (forall j, p seen (Call (column_plot sim j)) = true) ->
  checked_from p seen (loop_events sim n k) = true.
Proof.
  induction n as [|n IH]; intros k seen Hb Hc; [reflexivity|].
  change (p seen (Bind "i" (VItem (columns sim) k))
          && (p (seen ++ [Bind "i" (VItem (columns sim) k)])
                (Call (column_plot sim k))
              && checked_from p
                   ((seen ++ [Bind "i" (VItem (columns sim) k)])
                      ++ [Call (column_plot sim k)])
                   (loop_events sim n (S k))) = true).
  assert (Hin : forall x, In x seen ->
                  In x ((seen ++ [Bind "i" (VItem (columns sim) k)])
                          ++ [Call (column_plot sim k)])).
  { intros x Hx. apply in_app_iff. left. apply in_app_iff. now left. }
  apply andb_true_intro. split; [apply Hb|].
  apply andb_true_intro. split.
  - apply (p_grows seen); auto. intros x Hx. apply in_app_iff. now left.
  - apply IH; intros j; apply (p_grows seen); auto.
Qed.

Lemma checked_from_app_nil a b :
  checked_from p [] (a ++ b) = checked_from p [] a && checked_from p a b.
Proof. now rewrite checked_from_app. Qed.

Lemma holds_along_every_run :
  checked_from p [] (nominal 0) = true ->
  (forall j, p (trace loop_entry ++ [Call (columns simulated)])
               (Bind "i" (VItem (columns simulated) j)) = true) ->
  (forall j, p (trace loop_entry ++ [Call (columns simulated)])
               (Call (column_plot simulated j)) = true) ->
  forall O, holds_along p (trace (final (run O notebook))).
Proof.
  intros H0 Hb Hc O.
  set (n := count O (columns simulated)).
  set (A := trace loop_entry) in *.
  set (V := [Call (columns simulated)]) in *.
  set (F := final_plots frame prediction plt).
  assert (H : checked_from p [] (nominal n) = true).
  { change (nominal 0) with (A ++ V ++ F) in H0.
    change (nominal n) with (A ++ V ++ loop_events simulated n 0 ++ F).
    rewrite checked_from_app_nil, checked_from_app in H0.
    apply andb_prop in H0 as [H1 H2]. apply andb_prop in H2 as [H2 H3].
    rewrite checked_from_app_nil, checked_from_app, checked_from_app.
    rewrite H1, H2, !andb_true_l.
    apply andb_true_intro. split.
    - now apply checked_from_loop.
    - apply (checked_from_grows _ (A ++ V)); auto.
      intros x Hx. apply in_app_iff. now left. }
  destruct (run_prefix O) as [k Hk]. intros tr1 ev tr2 E.
  apply (checked_from_sound _ [] H tr1 ev (tr2 ++ k)).
  fold n in Hk. rewrite Hk, E, <- app_assoc. reflexivity.
Qed.

End Along.

Lemma sized_before_grows : grows sized_before.
Proof.
  intros seen seen' ev Hin. unfold sized_before.
  destruct (is_plotting ev); auto. now apply occurs_mono.
Qed.

Lemma raised_by_oracle O c msg st :
  run O notebook = Raised (ExtError c msg) st ->
  exists tr, trace st = tr ++ [Call c] /\ raises O tr c = Some msg.
Proof.
  intros E. destruct (run_faithful O) as [_ H].
  destruct (H init (quiet_nil O)) as (_ & _ & He).
  fold (run O notebook) in He. rewrite E in He.
  destruct He as (tr & Htr & _ & Hr). eauto.
Qed.

Lemma length_loop_events sim n : forall k,
  length (loop_events sim n k) = 2 * n.
Proof.
  induction n as [|n IH]; intros k; simpl; [reflexivity|].
  rewrite IH. lia.
Qed.

Lemma filter_column_plots sim n : forall k,
  List.filter is_column_plot (loop_events sim n k)
  = map (fun j => Call (column_plot sim j)) (seq k n).
Proof.
  induction n as [|n IH]; intros k; [reflexivity|].
  change (loop_events sim (S n) k)
    with (Bind "i" (VItem (columns sim) k) :: Call (column_plot sim k)
            :: loop_events sim n (S k)).
  cbn [List.filter is_column_plot column_plot].
  change (String.eqb "iloc" "iloc" && String.eqb "plot" "plot") with true.
  cbv iota. rewrite IH. reflexivity.
Qed.

(* ===================================================================== *)
(** * Further properties: statements *)
(* ===================================================================== *)

(** X1.  Every name is bound before it is read and every statement has a
    meaning: a run of the notebook either completes or stops at an external
    call that raised; it never ends in a [NameError] and never gets
    stuck. *)
Theorem X1_ends_normally_or_in_a_call : forall O,
  (exists st, run O notebook = Normal tt st)
  \/ (exists c msg st, run O notebook = Raised (ExtError c msg) st).
Proof.
  intros O. destruct (run_outcome O) as [H|H]; [left|right]; eauto.
Qed.

(** X2.  When no external call raises, the notebook runs to completion; the
    run then consists of 70 events plus two for each pass of the plotting
    loop (the binding of [i] and the plot of the column). *)
Theorem X2_completes_when_nothing_raises O :
  (forall tr c, raises O tr c = None) ->
  exists st, run O notebook = Normal tt st
             /\ length (trace st) = 70 + 2 * count O (columns simulated).
Proof.
  intros Hq. destruct (run_outcome O) as [H|(c & msg & st & H)].
  - eexists. split; [exact H|]. simpl. unfold nominal.
    rewrite length_app. simpl. rewrite length_app, length_loop_events.
    change (length (trace loop_entry)) with 64.
    change (length (final_plots frame prediction plt)) with 5. lia.
  - apply raised_by_oracle in H as (tr & _ & Hr). rewrite Hq in Hr.
    discriminate Hr.
Qed.

Lemma X2_completes_when_nothing_raises_witness :
  exists st, run (quiet_oracle 3) notebook = Normal tt st
             /\ length (trace st) = 76.
Proof.
  apply (X2_completes_when_nothing_raises (quiet_oracle 3)).
  intros tr c. reflexivity.
Defined.

(** X3.  In a completed run the loop plots every column of the simulated
    frame exactly once, in order: the column plots of the run are the plots
    of items 0, 1, ... of the [range], one for each pass. *)
Theorem X3_loop_plots_each_column_once O st :
  run O notebook = Normal tt st ->
  List.filter is_column_plot (trace st)
  = map (fun k => Call (column_plot simulated k))
        (seq 0 (count O (columns simulated))).
Proof.
  intros E. apply completed_run in E. subst st. simpl. unfold nominal.
  rewrite List.filter_app.
  change (List.filter is_column_plot (trace loop_entry)) with (@nil event).
  cbn [app List.filter is_column_plot columns].
  rewrite List.filter_app, filter_column_plots.
  change (List.filter is_column_plot (final_plots frame prediction plt))
    with (@nil event).
  now rewrite app_nil_r.
Qed.

Lemma X3_loop_plots_each_column_once_witness :
  List.filter is_column_plot (trace (final_state 2))
  = [Call (column_plot simulated 0); Call (column_plot simulated 1)].
Proof.
  apply (X3_loop_plots_each_column_once (quiet_oracle 2) (final_state 2)).
  exact (nominal_state (quiet_oracle 2)).
Defined.

(** X4.  After a completed run the loop variable [i] is still bound, to the
    last item of the [range]; when the loop made no pass, [i] is not bound
    at all. *)
Theorem X4_loop_variable_after_run O st :
  run O notebook = Normal tt st ->
  env st !! "i" = match count O (columns simulated) with
                  | 0 => None
                  | S m => Some (VItem (columns simulated) m)
                  end.
Proof.
  intros E. apply completed_run in E. subst st. simpl. unfold final_env.
  destruct (count O (columns simulated)) as [|m].
  - vm_compute. reflexivity.
  - apply lookup_insert_eq.
Qed.

Lemma X4_loop_variable_after_run_witness :
  env (final_state 0) !! "i" = None.
Proof.
  apply (X4_loop_variable_after_run (quiet_oracle 0) (final_state 0)).
  exact (nominal_state (quiet_oracle 0)).
Defined.

(** X5.  The three [summary] cells summarise three different fits, in this
    order: the oil fit, the heuristic oil fit and the seasonal fit.  The
    first and the third cell hold the same statement, [fit.summary()]. *)
Theorem X5_summaries_in_order O st :
  run O notebook = Normal tt st ->
  List.filter is_summary (trace st)
  = [summary_of oil_fit; summary_of heuristic_fit; summary_of seasonal_fit]
  /\ nth 10 notebook Markdown = nth 15 notebook Markdown.
Proof.
  intros E. apply completed_run in E. subst st. simpl.
  split; [|reflexivity].
  rewrite filter_nominal by reflexivity. vm_compute. reflexivity.
Qed.

Lemma X5_summaries_in_order_witness :
  List.filter is_summary (trace (final_state 1))
  = [summary_of oil_fit; summary_of heuristic_fit; summary_of seasonal_fit]
  /\ nth 10 notebook Markdown = nth 15 notebook Markdown.
Proof.
  apply (X5_summaries_in_order (quiet_oracle 1) (final_state 1)).
  exact (nominal_state (quiet_oracle 1)).
Defined.

(** X6.  Every model the notebook constructs, in every run, has an additive
    error, an additive trend and a damped trend, and is built on one of the
    two series: no model without trend is ever constructed. *)
Theorem X6_every_model_additive_damped : forall O,
  Forall (fun ev => additive_damped ev = true)
    (trace (final (run O notebook))).
Proof.
  apply every_event; [vm_compute; reflexivity|reflexivity|reflexivity].
Qed.

(** X7.  [np] is the only name the notebook binds and never reads: numpy is
    imported and not used, every other name it binds is read somewhere. *)
Theorem X7_only_numpy_is_unused :
  never_read notebook = ["np"]
  /\ In (SImport "numpy" "np") (code notebook).
Proof. split; [vm_compute; reflexivity|left; reflexivity]. Qed.

(** X8.  In every run the figure size is set before anything is drawn:
    every plotting call comes after the store into [plt.rcParams]. *)
Theorem X8_figure_size_before_plots : forall O,
  holds_along sized_before (trace (final (run O notebook))).
Proof.
  apply (holds_along_every_run sized_before sized_before_grows).
  - vm_compute. reflexivity.
  - reflexivity.
  - intros j. vm_compute. reflexivity.
Qed.

(** X10.  After a completed run [model], [fit] and [params_R] denote the
    seasonal model, its fit and its ten parameters, [fit_R] the smooth of
    the seasonal model, while [yhat] and [params] still denote the fitted
    values and the five parameters of the oil section. *)
Theorem X10_names_after_run O st :
  run O notebook = Normal tt st ->
  env st !! "model" = Some seasonal_model /\
  env st !! "fit" = Some seasonal_fit /\
  env st !! "params_R" = Some austourists_params /\
  env st !! "fit_R" = Some (smooth_result seasonal_model austourists_params) /\
  env st !! "yhat" = Some (VAttr oil_smooth "fittedvalues") /\
  env st !! "params" = Some oil_params /\
  env st !! "fit_heuristic" = Some heuristic_fit.
Proof.
  intros E. apply completed_run in E. subst st. simpl. unfold final_env.
  destruct (count O (columns simulated)) as [|m].
  - repeat split; vm_compute; reflexivity.
  - repeat split; rewrite lookup_insert_ne by discriminate;
      vm_compute; reflexivity.
Qed.

Lemma X10_names_after_run_witness :
  env (final_state 4) !! "model" = Some seasonal_model /\
  env (final_state 4) !! "fit" = Some seasonal_fit /\
  env (final_state 4) !! "params_R" = Some austourists_params /\
  env (final_state 4) !! "fit_R"
    = Some (smooth_result seasonal_model austourists_params) /\
  env (final_state 4) !! "yhat" = Some (VAttr oil_smooth "fittedvalues") /\
  env (final_state 4) !! "params" = Some oil_params /\
  env (final_state 4) !! "fit_heuristic" = Some heuristic_fit.
Proof.
  apply (X10_names_after_run (quiet_oracle 4) (final_state 4)).
  exact (nominal_state (quiet_oracle 4)).
Defined.

Lemma Forall_of_forallb (P : event -> Prop) (p : event -> bool) l :
  (forall ev, p ev = true -> P ev) -> forallb p l = true -> Forall P l.
Proof.
  intros Hs H. rewrite Forall_forall. intros ev Hin.
  rewrite forallb_forall in H. apply Hs, H. now apply list_elem_of_In.
Qed.

Lemma notebook_scoped :
  exists D, scoped_block [] (code notebook) = Some D.
Proof. eexists. vm_compute. reflexivity. Qed.

(** X11.  The notebook is self-contained: it reads no name that it has not
    bound itself, so a run started in a kernel that already holds variables
    records the same events and ends the same way as a run started in a
    fresh kernel, provided no leftover variable hides the builtin
    [range]. *)
Theorem X11_self_contained O env0 :
  (forall x, mem x builtins = true -> env0 !! x = None) ->
  trace (final (exec_block O (code notebook) (mkState env0 [])))
    = trace (final (run O notebook))
  /\ match exec_block O (code notebook) (mkState env0 []),
           run O notebook with
     | Normal _ _, Normal _ _ => True
     | Raised x _, Raised y _ => x = y
     | Stuck _, Stuck _ => True
     | _, _ => False
     end.
Proof.
  intros Hb. destruct notebook_scoped as [D HD].
  assert (HT : Twin [] D (exec_block O (code notebook))).
  { apply twin_exec_block; [|exact HD].
    rewrite Forall_forall. intros s _ D0 D1. apply twin_exec. }
  assert (Hag : agree [] (mkState env0 []) init).
  { split; [reflexivity|]. intros x Hx. simpl.
    rewrite lookup_empty. apply Hb. exact Hx. }
  destruct (HT _ _ Hag) as [Hp Hk]. fold (run O notebook) in *.
  split.
  - apply (Hp [] Hag).
  - destruct (exec_block O (code notebook) (mkState env0 [])),
             (run O notebook); auto.
Qed.

Lemma X11_self_contained_witness :
  trace (final (exec_block (quiet_oracle 2) (code notebook)
                  (mkState stale_env [])))
    = trace (final (run (quiet_oracle 2) notebook))
  /\ match exec_block (quiet_oracle 2) (code notebook)
             (mkState stale_env []),
           run (quiet_oracle 2) notebook with
     | Normal _ _, Normal _ _ => True
     | Raised x _, Raised y _ => x = y
     | Stuck _, Stuck _ => True
     | _, _ => False
     end.
Proof.
  apply (X11_self_contained (quiet_oracle 2) stale_env).
  intros x Hx. unfold mem, builtins in Hx. simpl in Hx.
  rewrite orb_false_r in Hx. apply String.eqb_eq in Hx. subst x.
  vm_compute. reflexivity.
Defined.

(** A leftover variable named [range] does change the run: the loop then
    iterates over a call of that variable. *)
Example shadowed_range_changes_the_run :
  trace (final (exec_block (quiet_oracle 0) (code notebook)
                  (mkState (<["range" := VStr "stale"]> ∅) [])))
  <> trace (final (run (quiet_oracle 0) notebook)).
Proof.
  intros H. apply (f_equal (fun l => l !! 64%nat)) in H.
  vm_compute in H. discriminate H.
Qed.

(** X12.  The cells depend on the order in which they are run.  Executed
    again in the environment left by a completed run, the second oil cell
    cannot call [smooth] on the oil model, whatever the external calls do:
    every [smooth] call it makes is on the seasonal model with the five oil
    parameters, because [model] has been rebound in between.  If the cell
    completes, it has made that call and [yhat] is bound to its fitted
    values; with no call raising it does complete. *)
Theorem X12_rerun_of_oil_cell_uses_seasonal_model O O' st :
  run O notebook = Normal tt st ->
  Forall (is_the_call ["smooth"] (smooth_result seasonal_model oil_params))
    (trace (final (exec_block O' cell_oil_heuristic (mkState (env st) []))))
  /\ (forall st',
        exec_block O' cell_oil_heuristic (mkState (env st) [])
          = Normal tt st' ->
        In (Call (smooth_result seasonal_model oil_params)) (trace st')
        /\ env st' !! "yhat"
           = Some (VAttr (smooth_result seasonal_model oil_params)
                     "fittedvalues"))
  /\ exists st',
       exec_block (calm O') cell_oil_heuristic (mkState (env st) [])
       = Normal tt st'.
Proof.
  intros E. apply completed_run in E. subst st. simpl env.
  set (s0 := mkState (final_env (count O (columns simulated))) []).
  assert (Hf : faithful O' (exec_block O' cell_oil_heuristic)
                           (exec_block (calm O') cell_oil_heuristic)).
  { apply faithful_exec_block.
    assert (Hh : Forall (fun s => handler_free s = true) cell_oil_heuristic)
      by (apply handler_free_body; vm_compute; reflexivity).
    rewrite Forall_forall in *. intros s Hs. apply faithful_exec, Hh, Hs. }
  destruct Hf as [_ Hf]. destruct (Hf s0 (quiet_nil O')) as (_ & Hp & He).
  assert (Hcalm :
    forallb (is_the_call_b ["smooth"] (smooth_result seasonal_model oil_params))
      (trace (final (exec_block (calm O') cell_oil_heuristic s0))) = true
    /\ occurs (Call (smooth_result seasonal_model oil_params))
         (trace (final (exec_block (calm O') cell_oil_heuristic s0))) = true
    /\ env (final (exec_block (calm O') cell_oil_heuristic s0)) !! "yhat"
       = Some (VAttr (smooth_result seasonal_model oil_params) "fittedvalues")
    /\ exists st', exec_block (calm O') cell_oil_heuristic s0 = Normal tt st').
  { unfold s0, final_env. destruct (count O (columns simulated)) as [|m].
    - split; [vm_compute; reflexivity|]. split; [vm_compute; reflexivity|].
      split; [vm_compute; reflexivity|]. eexists. vm_compute. reflexivity.
    - split; [vm_compute; reflexivity|]. split; [vm_compute; reflexivity|].
      split; [vm_compute; reflexivity|]. eexists. vm_compute. reflexivity. }
  destruct Hcalm as (Hall & Hocc & Henv & Hnorm).
  split; [|split].
  - destruct Hp as [k Hk]. rewrite Hk, forallb_app in Hall.
    apply andb_prop in Hall as [Hall _].
    apply (Forall_of_forallb _ _ _ (is_the_call_sound _ _) Hall).
  - intros st' Hrun. rewrite Hrun in He. destruct He as [He _].
    rewrite He in Hocc, Henv. simpl in Hocc, Henv.
    split; [now apply occurs_In|exact Henv].
  - exact Hnorm.
Qed.

Lemma X12_rerun_of_oil_cell_uses_seasonal_model_witness :
  Forall (is_the_call ["smooth"] (smooth_result seasonal_model oil_params))
    (trace (final (exec_block failing_fit cell_oil_heuristic
                     (mkState (env (final_state 1)) []))))
  /\ (forall st',
        exec_block failing_fit cell_oil_heuristic
          (mkState (env (final_state 1)) []) = Normal tt st' ->
        In (Call (smooth_result seasonal_model oil_params)) (trace st')
        /\ env st' !! "yhat"
           = Some (VAttr (smooth_result seasonal_model oil_params)
                     "fittedvalues"))
  /\ exists st',
       exec_block (calm failing_fit) cell_oil_heuristic
         (mkState (env (final_state 1)) []) = Normal tt st'.
Proof.
  apply (X12_rerun_of_oil_cell_uses_seasonal_model
           (quiet_oracle 1) failing_fit (final_state 1)).
  exact (nominal_state (quiet_oracle 1)).
Defined.

(** X13.  The cells have to be run in order: apart from the import cell
    and the empty last cell, every code cell run on its own in a fresh
    kernel ends in a [NameError], whatever the external calls would do, and
    does so before it makes any external call. *)
Theorem X13_cells_need_earlier_cells : forall O,
  Forall (fun c => match c with
                   | Markdown => True
                   | Code src =>
                       src = cell_imports \/ src = []
                       \/ needs_earlier_cells O src
                   end) notebook.
Proof.
  intros O. unfold notebook.
  repeat (constructor;
          [first [exact I
                 |left; reflexivity
                 |right; left; reflexivity
                 |right; right; eexists; eexists; split;
                  vm_compute; reflexivity]|]).
  constructor.
Qed.
